(** * Stub generator for the Framscript API description

    A shallow embedding of [generate_frams_pyi_from_framscript_pydantic_xml.py]:
    the schema model (Argument, Element, Type, FramscriptDoc), the docstring
    formatter, the type mapper, the duplicate-id analysis and the stub
    emitter [main_write_framscript_part_of_the_stub], together with the
    script's top-level error handling and its queries on a parsed document
    ([find_type_by_name], [get_all_functions], [get_functions_with_args],
    [print_summary]); and of the parts of [FramsticksLib.py] that do not
    compute inside the native library ([shortGenotype],
    [satisfiesConstraints], [mutate], [crossOver], [isValid],
    [isValidCreature]), with the library's answers taken as parameters.

    Conventions of the embedding.
    - A Python [str] is a [string] whose characters stand for the code points
      U+0000..U+00FF ([ascii] n is code point n).  The character classes used
      by [str.strip], [str.splitlines], [str.isdigit], [str.lower] and [repr]
      are the CPython ones restricted to that range.
    - [Optional[str]] is [option string]; Python truthiness of such a value
      is [truthy].
    - [print] appends its argument to the output buffer; one buffer entry is
      one call of [print], and [render] gives the text actually written
      (every entry followed by a newline).
    - Exceptions are values of [exn]; the emitter runs in a state-and-error
      monad over the output buffer and the one local variable that survives
      loop iterations ([ret_type_comment]). *)

From Stdlib Require Import Ascii NArith ZArith Lia.
From stdpp Require Import gmap strings list fin_maps pretty sorting.

Local Open Scope stdpp_scope.

(** ** Python string operations used by the generator *)

Module PyStr.

Definition ord (c : ascii) : N := N_of_ascii c.

Definition between (lo hi n : N) : bool := ((lo <=? n) && (n <=? hi))%N.

(** [Py_UNICODE_ISSPACE] on U+0000..U+00FF. *)
Definition isspace (c : ascii) : bool :=
  let n := ord c in
  between 9 13 n || between 28 32 n || (n =? 133)%N || (n =? 160)%N.

(** [Py_UNICODE_ISLINEBREAK] on U+0000..U+00FF. *)
Definition islinebreak (c : ascii) : bool :=
  let n := ord c in
  between 10 13 n || between 28 30 n || (n =? 133)%N.

(** [str.isdigit] of a one-character string: the decimal digits and the
    superscript digits U+00B2, U+00B3, U+00B9. *)
Definition isdigit (c : ascii) : bool :=
  let n := ord c in
  between 48 57 n || (n =? 178)%N || (n =? 179)%N || (n =? 185)%N.

(** [Py_UNICODE_ISPRINTABLE] on U+0000..U+00FF. *)
Definition isprintable (c : ascii) : bool :=
  let n := ord c in
  between 32 126 n || (between 161 255 n && negb (n =? 173)%N).

Definition lower_char (c : ascii) : ascii :=
  let n := ord c in
  if between 65 90 n || (between 192 222 n && negb (n =? 215)%N)
  then ascii_of_N (n + 32) else c.

Fixpoint lower (s : string) : string :=
  match s with
  | EmptyString => EmptyString
  | String c s' => String (lower_char c) (lower s')
  end.

Fixpoint rev_append (s acc : string) : string :=
  match s with
  | EmptyString => acc
  | String c s' => rev_append s' (String c acc)
  end.

Definition rev (s : string) : string := rev_append s EmptyString.

Fixpoint lstrip (s : string) : string :=
  match s with
  | EmptyString => EmptyString
  | String c s' => if isspace c then lstrip s' else s
  end.

Definition rstrip (s : string) : string := rev (lstrip (rev s)).

(** [s.strip()] *)
Definition strip (s : string) : string := rstrip (lstrip s).

(** [s.splitlines()]: scan left to right, [cur] is the line collected so
    far; a line break closes the line, CR LF counts as one break, and a
    last line without a break is kept only when it is not empty. *)
Fixpoint splitlines_from (cur s : string) : list string :=
  match s with
  | EmptyString =>
      match cur with EmptyString => [] | _ => [cur] end
  | String c rest =>
      if islinebreak c then
        match c, rest with
        | "013"%char, String "010"%char rest' =>
            cur :: splitlines_from EmptyString rest'
        | _, _ => cur :: splitlines_from EmptyString rest
        end
      else splitlines_from (cur +:+ String c EmptyString) rest
  end.

Definition splitlines (s : string) : list string :=
  splitlines_from EmptyString s.

(** [c in s] for a one-character [c]. *)
Fixpoint contains (c : ascii) (s : string) : bool :=
  match s with
  | EmptyString => false
  | String d s' => if decide (c = d) then true else contains c s'
  end.

(** [s.replace(old, new)] for one-character [old] and [new]. *)
Fixpoint replace (old new : ascii) (s : string) : string :=
  match s with
  | EmptyString => EmptyString
  | String c s' =>
      String (if decide (c = old) then new else c) (replace old new s')
  end.

Fixpoint repeat (s : string) (n : nat) : string :=
  match n with
  | O => EmptyString
  | S n' => s +:+ repeat s n'
  end.

(** [s * n] for an [int] n: empty when [n] is not positive. *)
Definition mul (s : string) (n : Z) : string := repeat s (Z.to_nat n).

(** [sep.join(l)] *)
Fixpoint join (sep : string) (l : list string) : string :=
  match l with
  | [] => EmptyString
  | [x] => x
  | x :: rest => x +:+ sep +:+ join sep rest
  end.

(** [bool(s)] *)
Definition truthy (s : string) : bool :=
  match s with EmptyString => false | _ => true end.

Definition hexdigit (n : N) : ascii :=
  if (n <? 10)%N then ascii_of_N (48 + n) else ascii_of_N (87 + n).

Definition backslash : ascii := "\"%char.
Definition squote : ascii := "'"%char.
Definition dquote : ascii := "034"%char.

(** One character of [repr(s)], given the chosen quote. *)
Definition repr_char (quote c : ascii) : string :=
  if decide (c = quote) then String backslash (String c EmptyString)
  else if decide (c = backslash) then String backslash (String c EmptyString)
  else if decide (c = "009"%char) then "\t"
  else if decide (c = "010"%char) then "\n"
  else if decide (c = "013"%char) then "\r"
  else if isprintable c then String c EmptyString
  else String backslash
         (String "x" (String (hexdigit (ord c / 16))
                        (String (hexdigit (ord c mod 16)) EmptyString))).

Fixpoint repr_body (quote : ascii) (s : string) : string :=
  match s with
  | EmptyString => EmptyString
  | String c s' => repr_char quote c +:+ repr_body quote s'
  end.

(** [repr(s)]: single quotes, unless the text has a single quote and no
    double quote. *)
Definition repr (s : string) : string :=
  let quote :=
    if contains squote s && negb (contains dquote s) then dquote else squote in
  String quote (repr_body quote s +:+ String quote EmptyString).

End PyStr.


Definition nl : string := String "010"%char EmptyString.

(** ** Schema model *)

Module Argument.
Record t := mk {
  name : option string;
  type : option string;
  description : option string
}.
End Argument.

Module Arguments.
Record t := mk { arguments : list Argument.t }.
End Arguments.

Module Element.
Record t := mk {
  id : string;
  name : option string;
  type : option string;
  function : option string;
  deprecated : option string;
  default : option string;
  min : option string;
  max : option string;
  flags : option string;
  description : option string;
  arguments : option Arguments.t
}.

Definition is_function (self : t) : bool :=
  bool_decide (function self = Some "true").

Definition is_deprecated (self : t) : bool :=
  bool_decide (deprecated self = Some "true").

(** Every model instance is truthy, so only [None] selects the empty list. *)
Definition get_arguments (self : t) : list Argument.t :=
  match arguments self with
  | Some a => Arguments.arguments a
  | None => []
  end.
End Element.

(** The closed [Literal] of contexts accepted by the loader. *)
Inductive Context : Set :=
  | CommandLineInterface | ExperimentDefinition | FitnessFormula
  | FramsticksTheater | GlobalContext | NeuronDefinitions
  | SignalLabelFormula | VisualStyleDefinition | ExpdefFile | NeuroFile
  | PropertiesFile | ScriptFile | ShowFile | StateFile | StyleFile.

Definition context_str (c : Context) : string :=
  match c with
  | CommandLineInterface => "Command line interface"
  | ExperimentDefinition => "Experiment definition"
  | FitnessFormula => "Fitness formula"
  | FramsticksTheater => "Framsticks Theater"
  | GlobalContext => "Global context"
  | NeuronDefinitions => "Neuron definitions"
  | SignalLabelFormula => "Signal label formula"
  | VisualStyleDefinition => "Visual style definition"
  | ExpdefFile => "expdef file"
  | NeuroFile => "neuro file"
  | PropertiesFile => "properties file"
  | ScriptFile => "script file"
  | ShowFile => "show file"
  | StateFile => "state file"
  | StyleFile => "style file"
  end.

(** The class [Type] of the script ([Type] is reserved here). *)
Module TypeDecl.
Record t := mk {
  name : string;
  context : Context;
  description : option string;
  elements : list Element.t
}.
End TypeDecl.

Module FramscriptDoc.
Record t := mk { types : list TypeDecl.t }.
End FramscriptDoc.

(** ** Constants of the generator *)

Definition INVALID_PY_IDENTS : list string := ["import"; "class"; "def"; "as"].

Definition GLOBAL_CONTEXT : string := "Global context".

Definition MAP_TO_SIMPLE_PY_TYPE : gmap string string :=
  list_to_map
    [("string", "str"); ("float", "float"); ("integer", "int");
     ("void", "None"); ("untyped", "Any")].

(** [MAP_TO_SIMPLE_PY_TYPE.get(k)], where [k] may be [None]. *)
Definition map_get (k : option string) : option string :=
  match k with
  | Some k => MAP_TO_SIMPLE_PY_TYPE !! k
  | None => None
  end.

(** [str(v)] and [repr(v)] of a value that is [None] or a string, and its
    truthiness. *)
Definition str_of (v : option string) : string :=
  match v with Some s => s | None => "None" end.

Definition repr_of (v : option string) : string :=
  match v with Some s => PyStr.repr s | None => "None" end.

Definition truthy (v : option string) : bool :=
  match v with Some s => PyStr.truthy s | None => false end.

(** [v or d] *)
Definition or_else (v : option string) (d : string) : string :=
  match v with
  | Some s => if PyStr.truthy s then s else d
  | None => d
  end.

(** ** Docstring formatter *)

Definition triple_quote : string :=
  String PyStr.dquote (String PyStr.dquote (String PyStr.dquote EmptyString)).

Definition format_description_as_docstring (desc : string) (indent : Z) : string :=
  let desc_lines := PyStr.splitlines (PyStr.strip desc) in
  let pad := PyStr.mul " " indent in
  if bool_decide (length desc_lines = 0%nat) then ""
  else if bool_decide (length desc_lines = 1%nat)
          && negb (PyStr.contains PyStr.backslash desc)
  then pad +:+ PyStr.repr (List.hd "" desc_lines)
  else
    let ret :=
      [pad +:+ (if PyStr.contains PyStr.backslash desc
                then "r" +:+ triple_quote else triple_quote)] in
    let ret := foldl (fun ret ln => ret ++ [pad +:+ ln]) ret desc_lines in
    let ret := ret ++ [pad +:+ triple_quote] in
    PyStr.join nl ret.

(** ** Type mapper *)

Definition format_as_python_type_extvalue (el_type : option string)
  : string * option string :=
  match map_get el_type with
  | Some maybe_py_type =>
      if bool_decide (maybe_py_type ∈ ["int"; "float"; "str"; "None"])
      then ("ExtValue[" +:+ maybe_py_type +:+ "]", Some "")
      else ("ExtValue", el_type)
  | None => ("ExtValue", el_type)
  end.

(** ** Overload analysis *)

(** [collections.Counter(ids)] *)
Definition Counter (ids : list string) : gmap string nat :=
  foldl (fun m k => <[k := S (default 0%nat (m !! k))]> m) ∅ ids.

(** [{k for k, v in Counter(el.id for el in elements).items() if v > 1}] *)
Definition duplicate_elements (elements : list Element.t) : gset string :=
  dom (filter (fun kv => (1 < kv.2)%nat) (Counter (Element.id <$> elements))).

(** ** The emitter's effects *)

Inductive exn : Set := AssertionError | AttributeError | UnboundLocalError.

Inductive outcome (A : Type) : Type :=
  | Returned (a : A)
  | Raised (e : exn).
Arguments Returned {A} a.
Arguments Raised {A} e.

(** What a call of the emitter can observe and change: the redirected
    standard output, and the local [ret_type_comment], which is unbound
    ([None]) until its first assignment and keeps its value afterwards. *)
Record emit_state := mk_state {
  buf : list string;
  ret_type_comment : option (option string)
}.

Definition M (A : Type) : Type := emit_state -> outcome A * emit_state.

Definition ret {A} (a : A) : M A := fun st => (Returned a, st).

Definition bind {A B} (m : M A) (k : A -> M B) : M B :=
  fun st =>
    match m st with
    | (Returned a, st') => k a st'
    | (Raised e, st') => (Raised e, st')
    end.

Definition raise {A} (e : exn) : M A := fun st => (Raised e, st).

Definition lift {A} (o : outcome A) : M A := fun st => (o, st).

Declare Scope emit_scope.
Delimit Scope emit_scope with emit.
Notation "'let*' x ':=' c1 'in' c2" := (bind c1 (fun x => c2))
  (at level 10, x name, c1 at level 100, c2 at level 200) : emit_scope.
Notation "c1 '>>' c2" := (bind c1 (fun _ => c2))
  (at level 100, c2 at level 200, right associativity) : emit_scope.
Local Open Scope emit_scope.

(** [print(s)] *)
Definition print (s : string) : M unit :=
  fun st => (Returned tt, mk_state (buf st ++ [s]) (ret_type_comment st)).

Definition assign_ret_type_comment (v : option string) : M unit :=
  fun st => (Returned tt, mk_state (buf st) (Some v)).

(** Reading the local raises [UnboundLocalError] while it is unbound. *)
Definition read_ret_type_comment : M (option string) :=
  fun st =>
    match ret_type_comment st with
    | Some v => (Returned v, st)
    | None => (Raised UnboundLocalError, st)
    end.

Definition when (b : bool) (m : M unit) : M unit := if b then m else ret tt.

(** [for x in l: body x] *)
Fixpoint for_each {A} (l : list A) (body : A -> M unit) : M unit :=
  match l with
  | [] => ret tt
  | x :: rest => body x >> for_each rest body
  end.

(** The text written by the buffered [print] calls. *)
Definition render (b : list string) : string :=
  foldr (fun s acc => s +:+ nl +:+ acc) "" b.

(** ** The stub emitter *)

(** The first two steps on an argument's name: [arg.name or "_"], then the
    ["a_"] prefix when the first character is a digit.  The name is never
    empty at the indexing [arg_name[0]]. *)
Definition arg_base_name (arg : Argument.t) : string :=
  let arg_name := or_else (Argument.name arg) "_" in
  match arg_name with
  | String c _ => if PyStr.isdigit c then "a_" +:+ arg_name else arg_name
  | EmptyString => arg_name
  end.

(** The third step: the ["_2"] suffix when the name is in [arg_name_repeats]. *)
Definition arg_legal_name (arg : Argument.t) (arg_name_repeats : gset string)
  : string :=
  let arg_name := arg_base_name arg in
  if bool_decide (arg_name ∈ arg_name_repeats)
  then arg_name +:+ "_2" else arg_name.

(** The annotation of an argument: the bare mapped name, or the quoted
    schema type name when the table has none. *)
Definition arg_annotation (arg : Argument.t) : string :=
  match map_get (Argument.type arg) with
  | Some arg_type_py => arg_type_py
  | None => repr_of (Argument.type arg)
  end.

(** One iteration of the loop over a function's arguments; [args] and
    [arg_name_repeats] are the loop's two accumulators.  The script runs
    without [-O], so its [assert] is executed. *)
Definition arg_iteration (arg : Argument.t)
    (args : list string) (arg_name_repeats : gset string)
  : outcome (list string * gset string) :=
  if truthy (Argument.description arg) then Raised AssertionError
  else
    let arg_name := arg_legal_name arg arg_name_repeats in
    Returned
      (args ++ [PyStr.replace " " "_" arg_name +:+ ": " +:+ arg_annotation arg],
       {[arg_name]} ∪ arg_name_repeats).

(** The loop; its result is the value of both accumulators at loop exit. *)
Fixpoint args_loop (func_args : list Argument.t)
    (args : list string) (arg_name_repeats : gset string)
  : outcome (list string * gset string) :=
  match func_args with
  | [] => Returned (args, arg_name_repeats)
  | arg :: rest =>
      match arg_iteration arg args arg_name_repeats with
      | Returned (args', repeats') => args_loop rest args' repeats'
      | Raised e => Raised e
      end
  end.

(** The identifier written for an element. *)
Definition element_id_py (el : Element.t) : string :=
  if bool_decide (Element.id el ∈ INVALID_PY_IDENTS)
  then Element.id el +:+ "_" else Element.id el.

(** The description text of an element, with its [name] put in front when
    the name is not the id (or the id followed by " object"), ignoring case. *)
Definition element_descr (el : Element.t) : string :=
  let descr := or_else (Element.description el) "" in
  match Element.name el with
  | Some name =>
      if negb (bool_decide (PyStr.lower name = PyStr.lower (Element.id el)))
         && negb (bool_decide
                    (PyStr.lower name = PyStr.lower (Element.id el) +:+ " object"))
      then name +:+ nl +:+ nl +:+ descr
      else descr
  | None => descr
  end.

(** [f"    def {id_py}({args}){ret_type}:{ret_type_comment}"] *)
Definition signature_line (id_py args ret_type ret_type_comment : string)
  : string :=
  "    def " +:+ id_py +:+ "(" +:+ args +:+ ")" +:+ ret_type +:+ ":"
  +:+ ret_type_comment.

Definition emit_function (duplicate_elements : gset string) (el : Element.t)
    (id_py descr : string) : M unit :=
  let* looped := lift (args_loop (Element.get_arguments el) [] ∅) in
  let args := PyStr.join ", " (fst looped) in
  let* ret_type :=
    match Element.type el with
    | Some el_type =>
        let '(ret_type, ret_type_comment) :=
          format_as_python_type_extvalue (Some el_type) in
        assign_ret_type_comment
          (if truthy ret_type_comment
           then Some ("  # returns " +:+ str_of ret_type_comment)
           else ret_type_comment) >>
        ret (" -> " +:+ ret_type)
    | None => ret ""
    end in
  when (Element.is_deprecated el) (print "    @deprecated") >>
  when (bool_decide (Element.id el ∈ duplicate_elements))
       (print "    @overload") >>
  print "    @staticmethod" >>
  let* ret_type_comment := read_ret_type_comment in
  print (signature_line id_py args ret_type (str_of ret_type_comment)) >>
  print (format_description_as_docstring descr 8) >>
  print "        ..." >>
  print "".

Definition emit_field (el : Element.t) (id_py descr : string) : M unit :=
  let '(el_type_py, el_type_comment) :=
    format_as_python_type_extvalue (Element.type el) in
  let el_type_comment :=
    if truthy el_type_comment then "  # " +:+ str_of el_type_comment else "" in
  print ("    " +:+ id_py +:+ ": " +:+ el_type_py +:+ el_type_comment) >>
  when (PyStr.truthy descr) (print (format_description_as_docstring descr 4)).

Definition emit_element (duplicate_elements : gset string) (el : Element.t)
  : M unit :=
  let descr := element_descr el in
  let id_py := element_id_py el in
  if Element.is_function el
  then emit_function duplicate_elements el id_py descr
  else emit_field el id_py descr.

Definition missing_docstring : string :=
  "    " +:+ String PyStr.dquote "(missing docstring?)"
  +:+ String PyStr.dquote EmptyString.

(** The call [format_description_as_docstring(each_type.description)]:
    [None.strip()] raises [AttributeError]. *)
Definition format_type_description (d : option string) : M string :=
  match d with
  | Some desc => ret (format_description_as_docstring desc 4)
  | None => raise AttributeError
  end.

Definition is_global (each_type : TypeDecl.t) : bool :=
  bool_decide (context_str (TypeDecl.context each_type)
               ∈ [GLOBAL_CONTEXT; "Global context"]).

(** The class line of a Type and its documentation. *)
Definition emit_type_header (each_type : TypeDecl.t) : M unit :=
  print ("class " +:+ TypeDecl.name each_type +:+ "(ExtValue):") >>
  when (bool_decide (TypeDecl.description each_type = None))
       (print missing_docstring) >>
  let* doc := format_type_description (TypeDecl.description each_type) in
  print doc >>
  print "".

Definition emit_type (each_type : TypeDecl.t) : M unit :=
  if negb (is_global each_type) then ret tt
  else
    emit_type_header each_type >>
    let duplicate_elements := duplicate_elements (TypeDecl.elements each_type) in
    for_each (TypeDecl.elements each_type) (emit_element duplicate_elements) >>
    print "".

(** The imports and the base class, printed once. *)
Definition emit_header : M unit :=
  print "from warnings import deprecated" >>
  print "from typing import Any, overload" >>
  print ("from typing import Any as Object" +:+ nl +:+ nl) >>
  print ("class ExtValue: ..." +:+ nl +:+ nl).

Definition main_write_framscript_part_of_the_stub (doc : FramscriptDoc.t)
  : M unit :=
  emit_header >>
  for_each (FramscriptDoc.types doc) emit_type.

(** A call of the emitter on a given output stream: the locals start
    unbound. *)
Definition run_emitter (doc : FramscriptDoc.t) (out : list string)
  : outcome unit * list string :=
  let '(r, st) := main_write_framscript_part_of_the_stub doc (mk_state out None) in
  (r, buf st).

(** ** The script's entry point *)

(** One entry of [ValidationError.errors()]: the path of the offending
    field and the loader's message. *)
Inductive loc_item : Set :=
  | LocKey (k : string)
  | LocIndex (i : Z).

Record ErrorDetails := mk_error {
  err_type : string;
  err_loc : list loc_item;
  err_msg : string
}.

(** What [parse_framscript_xml] does with the input document. *)
Inductive load_outcome : Type :=
  | Loaded (doc : FramscriptDoc.t)
  | ValidationError (errors : list ErrorDetails)
  | OtherLoadError (class_name message : string).

(** What one run of the script leaves behind. *)
Record process_result := mk_result {
  stdout : list string;
  stderr : list string;
  exit_status : Z
}.

Definition exn_class_name (e : exn) : string :=
  match e with
  | AssertionError => "AssertionError"
  | AttributeError => "AttributeError"
  | UnboundLocalError => "UnboundLocalError"
  end.

Section EntryPoint.

(** Library and environment behaviour the script relies on: the text of a
    printed error entry, the text of [traceback.print_exc()], the message of
    an emitter exception, and the external formatter with what it prints. *)
Variable str_of_error : ErrorDetails -> string.
Variable traceback_text : string.
Variable exn_message : exn -> string.
Variable format_code_with_ruff : string -> list string * list string * string.

(** The [__main__] block.  No branch calls [sys.exit] or re-raises, so the
    interpreter ends with status 0 on every path. *)
Definition main (loaded : load_outcome) : process_result :=
  match loaded with
  | Loaded doc =>
      match run_emitter doc [] with
      | (Returned _, b) =>
          let '(ruff_out, ruff_err, buf_fmt) := format_code_with_ruff (render b) in
          mk_result (ruff_out ++ [buf_fmt]) ruff_err 0
      | (Raised e, _) =>
          mk_result
            ["<class '" +:+ exn_class_name e +:+ "'>";
             "Error: " +:+ exn_message e]
            [traceback_text] 0
      end
  | ValidationError errors =>
      mk_result (("----" +:+ nl +:+ nl +:+ nl) :: (str_of_error <$> errors))
                [traceback_text] 0
  | OtherLoadError class_name message =>
      mk_result ["<class '" +:+ class_name +:+ "'>"; "Error: " +:+ message]
                [traceback_text] 0
  end.

End EntryPoint.

(** ** Vocabulary of the statements *)

#[global] Instance Context_eq_dec : EqDecision Context.
Proof. solve_decision. Defined.

(** The four header entries printed before any Type. *)
Definition stub_header : list string :=
  ["from warnings import deprecated";
   "from typing import Any, overload";
   "from typing import Any as Object" +:+ nl +:+ nl;
   "class ExtValue: ..." +:+ nl +:+ nl].

(** [m] only appends to the buffer: its result, the entries it prints and
    the locals it leaves depend on the locals it starts from, not on what
    the buffer already holds. *)
Definition frames {A} (m : M A) : Prop :=
  forall l, exists r chunks l',
    forall b, m (mk_state b l) = (r, mk_state (b ++ chunks) l').

(** [m] can run to completion printing exactly [chunks]. *)
Definition emits (m : M unit) (chunks : list string) : Prop :=
  exists st st', m st = (Returned tt, st') /\ buf st' = buf st ++ chunks.

(** The entries printed for one emitted Type: the class line, the formatted
    description, an empty entry, one block per element in declaration
    order, and the closing empty entry. *)
Definition type_block (each_type : TypeDecl.t) (block : list string) : Prop :=
  exists (desc : string) (element_blocks : list (list string)),
    TypeDecl.description each_type = Some desc /\
    block =
      ["class " +:+ TypeDecl.name each_type +:+ "(ExtValue):";
       format_description_as_docstring desc 4; ""]
      ++ concat element_blocks ++ [""] /\
    Forall2
      (fun el b =>
         emits (emit_element (duplicate_elements (TypeDecl.elements each_type)) el) b)
      (TypeDecl.elements each_type) element_blocks.

(** The markers printed in front of a function's signature. *)
Definition function_markers (duplicate_elements : gset string) (el : Element.t)
  : list string :=
  (if Element.is_deprecated el then ["    @deprecated"] else [])
  ++ (if bool_decide (Element.id el ∈ duplicate_elements)
      then ["    @overload"] else [])
  ++ ["    @staticmethod"].

(** The argument descriptions that pass the emitter's assertion. *)
Definition descriptions_empty (func_args : list Argument.t) : Prop :=
  Forall (fun arg => truthy (Argument.description arg) = false) func_args.

(** Everything the emitter does before it starts on one element: the
    header, the Types in front of the element's Type, that Type's header
    and the elements declared before it. *)
Definition emission_up_to (types_before : list TypeDecl.t)
    (each_type : TypeDecl.t) (elements_before : list Element.t) : M unit :=
  emit_header >>
  for_each types_before emit_type >>
  emit_type_header each_type >>
  for_each elements_before
    (emit_element (duplicate_elements (TypeDecl.elements each_type))).

(** ** Concrete schemas used as test inputs *)

Definition plain_element (id : string) (type : option string)
    (function : bool) (description : string)
    (arguments : option Arguments.t) : Element.t :=
  Element.mk id None type (Some (if function then "true" else "false"))
    (Some "false") None None None None (Some description) arguments.

(** Two functions sharing the id [move]: one without arguments, one taking
    a [float]. *)
Definition move_noargs : Element.t :=
  plain_element "move" (Some "void") true "" None.

Definition move_float : Element.t :=
  plain_element "move" (Some "void") true ""
    (Some (Arguments.mk [Argument.mk (Some "x") (Some "float") (Some "")])).

(** Two fields sharing the id [size]. *)
Definition size_field : Element.t :=
  plain_element "size" (Some "integer") false "" None.

Definition creature_type : TypeDecl.t :=
  TypeDecl.mk "Creature" GlobalContext (Some "A creature in the simulation")
    [move_noargs; move_float].

Definition expdef_type : TypeDecl.t :=
  TypeDecl.mk "ExpProperties" ExpdefFile (Some "") [size_field].

Definition two_types_doc : FramscriptDoc.t :=
  FramscriptDoc.mk [expdef_type; creature_type].

(** A function with a description. *)
Definition described_function : Element.t :=
  plain_element "getName" (Some "string") true "Returns the world name" None.

(** A function without a declared type, followed by a function whose
    argument carries a description. *)
Definition typeless_function : Element.t :=
  plain_element "reset" None true "" None.

Definition described_argument : Argument.t :=
  Argument.mk (Some "x") (Some "float") (Some "X coordinate").

Definition function_with_described_argument : Element.t :=
  plain_element "moveTo" (Some "void") true ""
    (Some (Arguments.mk [described_argument])).

Definition world_type : TypeDecl.t :=
  TypeDecl.mk "World" GlobalContext (Some "Represents the simulation world")
    [typeless_function; function_with_described_argument].

Definition world_doc : FramscriptDoc.t := FramscriptDoc.mk [world_type].

Definition asserting_doc : FramscriptDoc.t :=
  FramscriptDoc.mk
    [TypeDecl.mk "World" GlobalContext (Some "")
       [function_with_described_argument]].

(** A global Type whose description element is missing (the default, the
    empty string), and one whose description is [None]. *)
Definition undescribed_doc : FramscriptDoc.t :=
  FramscriptDoc.mk [TypeDecl.mk "World" GlobalContext (Some "") []].

Definition none_description_doc : FramscriptDoc.t :=
  FramscriptDoc.mk [TypeDecl.mk "World" GlobalContext None []].

(** The loader's report for a Type without its [name] attribute. *)
Definition missing_name_error : ErrorDetails :=
  mk_error "missing" [LocKey "types"; LocIndex 0; LocKey "name"]
    "[line -1]: Field required".

(** Stand-ins for the environment when the entry point is run on a
    concrete input: errors print as their message, and the formatter
    returns the code unchanged. *)
Definition message_only (e : ErrorDetails) : string := err_msg e.

Definition no_formatter (code : string) : list string * list string * string :=
  ([], [], code).

(** ** Queries on a parsed document *)

(** The loop of [find_type_by_name]: the first Type with the name. *)
Fixpoint find_type_in (types : list TypeDecl.t) (name : string)
  : option TypeDecl.t :=
  match types with
  | [] => None
  | type_obj :: rest =>
      if bool_decide (TypeDecl.name type_obj = name) then Some type_obj
      else find_type_in rest name
  end.

Definition find_type_by_name (doc : FramscriptDoc.t) (name : string)
  : option TypeDecl.t :=
  find_type_in (FramscriptDoc.types doc) name.

(** [functions.extend([e for e in type_obj.elements if e.is_function])] for
    every Type, starting from the empty list. *)
Definition get_all_functions (doc : FramscriptDoc.t) : list Element.t :=
  foldl
    (fun functions type_obj =>
       functions ++ List.filter Element.is_function (TypeDecl.elements type_obj))
    [] (FramscriptDoc.types doc).

(** [elem.is_function and elem.arguments and elem.arguments.arguments]: a
    model instance is truthy, a list is truthy when it is not empty. *)
Definition is_function_with_args (elem : Element.t) : bool :=
  Element.is_function elem
  && match Element.arguments elem with
     | Some a =>
         match Arguments.arguments a with [] => false | _ :: _ => true end
     | None => false
     end.

Definition get_functions_with_args (doc : FramscriptDoc.t) : list Element.t :=
  foldl
    (fun functions_with_args type_obj =>
       foldl
         (fun functions_with_args elem =>
            if is_function_with_args elem
            then functions_with_args ++ [elem] else functions_with_args)
         functions_with_args (TypeDecl.elements type_obj))
    [] (FramscriptDoc.types doc).

(** [str(l)] of a list of strings. *)
Definition repr_list (l : list string) : string :=
  "[" +:+ PyStr.join ", " (PyStr.repr <$> l) +:+ "]".

(** What [print_summary] prints for one Type, appended to [out], and the
    set of contexts seen so far. *)
Definition print_type_summary (acc : list string * gset string)
    (type_obj : TypeDecl.t) : list string * gset string :=
  let out := acc.1 in
  let possible_contexts := acc.2 in
  let out :=
    out ++ ["Type: " +:+ TypeDecl.name type_obj +:+ " (context: "
            +:+ context_str (TypeDecl.context type_obj) +:+ ")"] in
  let possible_contexts :=
    {[context_str (TypeDecl.context type_obj)]} ∪ possible_contexts in
  let functions :=
    List.filter Element.is_function (TypeDecl.elements type_obj) in
  let fields :=
    List.filter (fun e => negb (Element.is_function e))
      (TypeDecl.elements type_obj) in
  let out := out ++ ["  Functions: " +:+ pretty (length functions)] in
  let out := out ++ ["  Fields: " +:+ pretty (length fields)] in
  let deprecated :=
    List.filter Element.is_deprecated (TypeDecl.elements type_obj) in
  let out :=
    match deprecated with
    | [] => out
    | _ :: _ => out ++ ["  Deprecated items: " +:+ pretty (length deprecated)]
    end in
  (out ++ [""], possible_contexts).

(** [list(sorted(possible_contexts))]: strings are ordered by code points. *)
Definition sorted_contexts (possible_contexts : gset string) : list string :=
  merge_sort String.le (elements possible_contexts).

(** [print_summary]: the entries it prints, one per call of [print]. *)
Definition print_summary (doc : FramscriptDoc.t) : list string :=
  let out :=
    ["Framscript Documentation Summary:";
     "Total types: " +:+ pretty (length (FramscriptDoc.types doc));
     ""] in
  let acc := foldl print_type_summary (out, ∅) (FramscriptDoc.types doc) in
  acc.1 ++ [nl +:+ "Contexts: " +:+ repr_list (sorted_contexts acc.2)].

(** [s] holds a character at which [str.splitlines] breaks. *)
Fixpoint has_linebreak (s : string) : bool :=
  match s with
  | EmptyString => false
  | String c s' => PyStr.islinebreak c || has_linebreak s'
  end.

(** The first function of a list, if any, declares a type. *)
Definition first_function_typed (functions : list Element.t) : Prop :=
  match functions with
  | [] => True
  | el :: _ => Element.type el <> None
  end.

(** The arguments of an element pass the emitter's assertion (an element
    that is not a function has none to check). *)
Definition arguments_pass (el : Element.t) : Prop :=
  Element.is_function el = true ->
  descriptions_empty (Element.get_arguments el).

(** ** The binding to the native library ([FramsticksLib.py]) *)

Module FramsticksLib.

Definition GENOTYPE_INVALID : string := "/*invalid*/".

(** [genotype[:10]] *)
Definition first_ten (genotype : string) : string :=
  String.substring 0 10 genotype.

Definition shortGenotype (genotype : string) : string :=
  if (String.length genotype <=? 10)%nat then PyStr.repr genotype
  else PyStr.repr (first_ten genotype +:+ "...").

(** What the binding reads from a [frams.Model]. *)
Record Model := mk_model {
  is_valid : Z;
  numparts : Z;
  numjoints : Z;
  numneurons : Z;
  numconnections : Z
}.

(** The result of a method: a value, or an exception with its message. *)
Inductive result (A : Type) : Type :=
  | Ok (a : A)
  | Error (class_name message : string).
Arguments Ok {A} a.
Arguments Error {A} class_name message.

Definition value_within_constraint (actual_value : Z)
    (constraint_value : option Z) : bool :=
  match constraint_value with
  | Some constraint_value =>
      if (actual_value >? constraint_value)%Z then false else true
  | None => true
  end.

(** A limit that allows whatever [tight] allows: no limit at all, or a
    limit that is at least as large. *)
Definition at_least_as_loose (tight loose : option Z) : Prop :=
  match loose, tight with
  | None, _ => True
  | Some l, Some t => (t <= l)%Z
  | Some _, None => False
  end.

Section Library.

(** The native library, seen from the binding.  [world] is its hidden state
    (random generators included); building a model, the genetic validity
    check and [canAdd] read a genotype without changing that state, while
    the genetic operators and [random.choice] advance it. *)
Variable world : Type.
Variable Model_newFromString : string -> Model.
Variable Geno_is_valid : string -> Z.
Variable Population_canAdd : string -> Z.
Variable GenMan_mutate : string -> world -> string * string * world.
Variable GenMan_crossOver : string -> string -> world -> string * string * world.
Variable random_choice_first : world -> bool * world.

(** The class attribute of the same name. *)
Variable GENOTYPE_INVALID_OFFSPRING_SUBSTITUTE_ORIGINAL : bool.

Definition getPJNC (genotype : string) : option (Z * Z * Z * Z) :=
  let model := Model_newFromString genotype in
  if (is_valid model =? 0)%Z then None
  else Some (numparts model, numjoints model, numneurons model,
             numconnections model).

Definition satisfiesConstraints (genotype : string)
    (max_numparts max_numjoints max_numneurons max_numconnections
       max_numgenochars : option Z) : bool :=
  match getPJNC genotype with
  | None => false
  | Some (P, J, N, C) =>
      let valid := true in
      let valid :=
        valid && value_within_constraint
                   (Z.of_nat (String.length genotype)) max_numgenochars in
      let valid := valid && value_within_constraint P max_numparts in
      let valid := valid && value_within_constraint J max_numjoints in
      let valid := valid && value_within_constraint N max_numneurons in
      let valid := valid && value_within_constraint C max_numconnections in
      valid
  end.

(** The loop of [mutate]; [mutated] and [printed] are what has been
    collected and printed so far. *)
Fixpoint mutate_loop (genotype_list mutated printed : list string) (w : world)
  : list string * list string * world :=
  match genotype_list with
  | [] => (mutated, printed, w)
  | genotype_parent :: rest =>
      let '(offspring_genotype, offspring_info, w) :=
        GenMan_mutate genotype_parent w in
      if bool_decide (offspring_genotype = GENOTYPE_INVALID)
         && GENOTYPE_INVALID_OFFSPRING_SUBSTITUTE_ORIGINAL
      then
        mutate_loop rest (mutated ++ [genotype_parent])
          (printed ++
           ["[WARN] mutate(" +:+ shortGenotype genotype_parent +:+
            ") failed but you requested GENOTYPE_INVALID_OFFSPRING_SUBSTITUTE_ORIGINAL, so returning the original genotype instead. Reason for failure: "
            +:+ offspring_info])
          w
      else mutate_loop rest (mutated ++ [offspring_genotype]) printed w
  end.

Definition mutate (genotype_list : list string) (w : world)
  : result (list string) * list string * world :=
  let '(mutated, printed, w) := mutate_loop genotype_list [] [] w in
  if bool_decide (length genotype_list ≠ length mutated)
  then (Error "RuntimeError"
          ("Submitted " +:+ pretty (length genotype_list) +:+
           " genotypes, received " +:+ pretty (length mutated) +:+ " mutants"),
        printed, w)
  else (Ok mutated, printed, w).

Definition crossOver (genotype_parent1 genotype_parent2 : string) (w : world)
  : string * list string * world :=
  let '(offspring_genotype, offspring_info, w) :=
    GenMan_crossOver genotype_parent1 genotype_parent2 w in
  if bool_decide (offspring_genotype = GENOTYPE_INVALID)
     && GENOTYPE_INVALID_OFFSPRING_SUBSTITUTE_ORIGINAL
  then
    let '(first, w) := random_choice_first w in
    (if first then genotype_parent1 else genotype_parent2,
     ["[WARN] crossOver(" +:+ shortGenotype genotype_parent1 +:+ ", " +:+
      shortGenotype genotype_parent2 +:+
      ") failed but you requested GENOTYPE_INVALID_OFFSPRING_SUBSTITUTE_ORIGINAL, so returning a random parent instead. Reason for failure: "
      +:+ offspring_info],
     w)
  else (offspring_genotype, [], w).

Definition isValid (genotype_list : list string) : result (list bool) :=
  let valid :=
    foldl (fun valid g => valid ++ [bool_decide (Geno_is_valid g = 1%Z)])
      [] genotype_list in
  if bool_decide (length genotype_list ≠ length valid)
  then Error "RuntimeError"
         ("Tested " +:+ pretty (length genotype_list) +:+
          " genotypes, received " +:+ pretty (length valid) +:+
          " validity values")
  else Ok valid.

Definition isValidCreature (genotype_list : list string) : result (list bool) :=
  let valid :=
    foldl
      (fun valid g =>
         if bool_decide (Geno_is_valid g ≠ 1%Z) then valid ++ [false]
         else valid ++ [bool_decide (Population_canAdd g = 1%Z)])
      [] genotype_list in
  if bool_decide (length genotype_list ≠ length valid)
  then Error "RuntimeError"
         ("Tested " +:+ pretty (length genotype_list) +:+
          " genotypes, received " +:+ pretty (length valid) +:+
          " validity values")
  else Ok valid.

End Library.

End FramsticksLib.

(** * Properties *)

(** ** Type mapper *)

Lemma MAP_TO_SIMPLE_PY_TYPE_lookup (k : string) :
  MAP_TO_SIMPLE_PY_TYPE !! k =
    if decide (k = "string") then Some "str"
    else if decide (k = "float") then Some "float"
    else if decide (k = "integer") then Some "int"
    else if decide (k = "void") then Some "None"
    else if decide (k = "untyped") then Some "Any"
    else None.
Proof.
  unfold MAP_TO_SIMPLE_PY_TYPE.
  cbn [list_to_map foldr fst snd].
  rewrite !lookup_insert, lookup_empty.
  repeat case_decide; congruence.
Qed.

(** C3: the type mapper is total on type names and its first component is
    never empty; the four primitive names give the parameterized wrapper
    with an empty comment, and every other name, ["untyped"] included,
    gives the bare wrapper with the name itself as comment. *)
Theorem format_as_python_type_extvalue_total (el_type : string) :
  fst (format_as_python_type_extvalue (Some el_type)) ≠ "" ∧
  format_as_python_type_extvalue (Some el_type) =
    if decide (el_type = "string") then ("ExtValue[str]", Some "")
    else if decide (el_type = "float") then ("ExtValue[float]", Some "")
    else if decide (el_type = "integer") then ("ExtValue[int]", Some "")
    else if decide (el_type = "void") then ("ExtValue[None]", Some "")
    else ("ExtValue", Some el_type).
Proof.
  unfold format_as_python_type_extvalue, map_get.
  rewrite MAP_TO_SIMPLE_PY_TYPE_lookup.
  repeat match goal with
         | |- context [decide (el_type = ?s)] =>
             destruct (decide (el_type = s)) as [->|?]
         end; split; (done || reflexivity || (vm_compute; congruence)).
Qed.

(** ** Strings *)

Lemma append_cons (c : ascii) (a b : string) :
  String c a +:+ b = String c (a +:+ b).
Proof. reflexivity. Qed.

Lemma append_nil_l (b : string) : "" +:+ b = b.
Proof. reflexivity. Qed.

Lemma append_nil_r (a : string) : a +:+ "" = a.
Proof. induction a as [|c a IH]; [reflexivity | by rewrite append_cons, IH]. Qed.

Lemma append_assoc (a b c : string) : (a +:+ b) +:+ c = a +:+ (b +:+ c).
Proof. induction a as [|x a IH]; [reflexivity | by rewrite !append_cons, IH]. Qed.

Lemma append_eq_nil (a b : string) : a +:+ b = "" -> a = "" /\ b = "".
Proof. destruct a; [rewrite append_nil_l; auto | rewrite append_cons; discriminate]. Qed.

Lemma contains_app (c : ascii) (a b : string) :
  PyStr.contains c (a +:+ b) = PyStr.contains c a || PyStr.contains c b.
Proof.
  induction a as [|d a IH]; [reflexivity|].
  rewrite append_cons. cbn [PyStr.contains].
  destruct (decide (c = d)); [reflexivity | exact IH].
Qed.

Lemma contains_rev_append (c : ascii) (s acc : string) :
  PyStr.contains c (PyStr.rev_append s acc)
  = PyStr.contains c s || PyStr.contains c acc.
Proof.
  revert acc. induction s as [|d s IH]; intros acc; [reflexivity|].
  cbn [PyStr.rev_append PyStr.contains]. rewrite IH.
  cbn [PyStr.contains]. destruct (decide (c = d)); [apply orb_true_r | reflexivity].
Qed.

Lemma contains_rev (c : ascii) (s : string) :
  PyStr.contains c (PyStr.rev s) = PyStr.contains c s.
Proof. unfold PyStr.rev. rewrite contains_rev_append. apply orb_false_r. Qed.

Lemma contains_lstrip (c : ascii) (s : string) :
  PyStr.isspace c = false ->
  PyStr.contains c (PyStr.lstrip s) = PyStr.contains c s.
Proof.
  intros Hc. induction s as [|d s IH]; [reflexivity|].
  cbn [PyStr.lstrip]. destruct (PyStr.isspace d) eqn:Hd; [|reflexivity].
  rewrite IH. cbn [PyStr.contains].
  destruct (decide (c = d)) as [->|]; [congruence | reflexivity].
Qed.

(** Trimming removes white space only. *)
Lemma contains_strip (c : ascii) (s : string) :
  PyStr.isspace c = false ->
  PyStr.contains c (PyStr.strip s) = PyStr.contains c s.
Proof.
  intros Hc. unfold PyStr.strip, PyStr.rstrip.
  rewrite contains_rev, contains_lstrip, contains_rev, contains_lstrip; auto.
Qed.

Lemma splitlines_from_nil (cur s : string) :
  PyStr.splitlines_from cur s = [] -> cur = "" /\ s = "".
Proof.
  revert cur. induction s as [|c rest IH]; intros cur.
  - destruct cur; [auto | discriminate].
  - cbn [PyStr.splitlines_from]. destruct (PyStr.islinebreak c).
    + destruct c as [[] [] [] [] [] [] [] []]; try discriminate.
      destruct rest as [|[[] [] [] [] [] [] [] []] ?]; discriminate.
    + intros H. apply IH in H as [H _]. apply append_eq_nil in H as [_ H].
      discriminate.
Qed.

(** A text has no line exactly when it is empty. *)
Lemma splitlines_nil (s : string) : PyStr.splitlines s = [] <-> s = "".
Proof.
  split; [intros H; apply splitlines_from_nil in H; tauto | intros ->; reflexivity].
Qed.

Lemma repr_char_no_newline (q c : ascii) :
  q = PyStr.squote \/ q = PyStr.dquote ->
  PyStr.contains "010" (PyStr.repr_char q c) = false.
Proof.
  intros [-> | ->]; destruct c as [[] [] [] [] [] [] [] []]; reflexivity.
Qed.

Lemma repr_body_no_newline (q : ascii) (s : string) :
  q = PyStr.squote \/ q = PyStr.dquote ->
  PyStr.contains "010" (PyStr.repr_body q s) = false.
Proof.
  intros Hq. induction s as [|c s IH]; [reflexivity|].
  cbn [PyStr.repr_body]. rewrite contains_app, IH, repr_char_no_newline; auto.
Qed.

(** [repr] of a string never spans several lines. *)
Lemma repr_no_newline (s : string) : PyStr.contains "010" (PyStr.repr s) = false.
Proof.
  unfold PyStr.repr.
  destruct (PyStr.contains PyStr.squote s && negb (PyStr.contains PyStr.dquote s));
    cbn [PyStr.contains]; (destruct (decide _); [discriminate|]);
    rewrite contains_app, repr_body_no_newline by auto; reflexivity.
Qed.

Lemma repeat_space_no_newline (n : nat) :
  PyStr.contains "010" (PyStr.repeat " " n) = false.
Proof. induction n as [|n IH]; [reflexivity | exact IH]. Qed.

Lemma foldl_snoc_map {A B} (f : A -> B) (l : list A) (acc : list B) :
  foldl (fun ret ln => ret ++ [f ln]) acc l = acc ++ (f <$> l).
Proof.
  revert acc. induction l as [|x l IH]; intros acc; cbn.
  - by rewrite app_nil_r.
  - rewrite IH. by rewrite <- app_assoc.
Qed.

(** The formatter's three cases, read off its definition. *)
Lemma format_description_as_docstring_unfold (desc : string) (indent : Z) :
  format_description_as_docstring desc indent =
    match PyStr.splitlines (PyStr.strip desc) with
    | [] => ""
    | ln :: more =>
        if bool_decide (more = []) && negb (PyStr.contains PyStr.backslash desc)
        then PyStr.mul " " indent +:+ PyStr.repr ln
        else PyStr.join nl
               ((PyStr.mul " " indent +:+
                   (if PyStr.contains PyStr.backslash desc
                    then "r" +:+ triple_quote else triple_quote))
                :: ((fun l => PyStr.mul " " indent +:+ l) <$> (ln :: more))
                ++ [PyStr.mul " " indent +:+ triple_quote])
    end.
Proof.
  unfold format_description_as_docstring.
  destruct (PyStr.splitlines (PyStr.strip desc)) as [|ln more]; [reflexivity|].
  rewrite foldl_snoc_map. cbn [length hd].
  rewrite (bool_decide_eq_false_2 (S _ = 0%nat)) by discriminate.
  destruct more as [|ln' more].
  - rewrite !bool_decide_eq_true_2 by reflexivity. reflexivity.
  - rewrite (bool_decide_eq_false_2 (S (length _) = 1%nat)) by discriminate.
    rewrite (bool_decide_eq_false_2 (_ :: _ = [])) by discriminate.
    reflexivity.
Qed.

(** C5: for every description and indentation width the formatter returns
    the empty string when the trimmed text is empty; the padding followed
    by the quoted literal of the line, on one line, when the trimmed text
    is a single line and has no backslash; and otherwise the block made of
    the opening delimiter, every line of the trimmed text and the closing
    delimiter, each padded and on its own line, where the opening
    delimiter is the raw one exactly when the text has a backslash. *)
Theorem format_description_as_docstring_cases (desc : string) (indent : Z) :
  let text := PyStr.strip desc in
  let pad := PyStr.mul " " indent in
  let out := format_description_as_docstring desc indent in
  (text = "" -> out = "") /\
  (forall ln : string,
      PyStr.splitlines text = [ln] ->
      PyStr.contains PyStr.backslash text = false ->
      out = pad +:+ PyStr.repr ln /\ PyStr.contains "010" out = false) /\
  (text <> "" ->
   length (PyStr.splitlines text) <> 1%nat
   \/ PyStr.contains PyStr.backslash text = true ->
   out = PyStr.join nl
           ([pad +:+ (if PyStr.contains PyStr.backslash text
                      then "r" +:+ triple_quote else triple_quote)]
            ++ ((fun ln => pad +:+ ln) <$> PyStr.splitlines text)
            ++ [pad +:+ triple_quote])).
Proof.
  intros text pad out. subst text pad out.
  rewrite format_description_as_docstring_unfold.
  rewrite (contains_strip PyStr.backslash desc) by reflexivity.
  split; [|split].
  - intros ->. reflexivity.
  - intros ln -> ->. rewrite bool_decide_eq_true_2 by reflexivity.
    split; [reflexivity|]. cbn [andb negb].
    rewrite contains_app, repr_no_newline. unfold PyStr.mul.
    by rewrite repeat_space_no_newline.
  - intros Hne Hcase.
    destruct (PyStr.splitlines (PyStr.strip desc)) as [|ln more] eqn:Hl.
    + apply splitlines_nil in Hl. contradiction.
    + destruct Hcase as [Hlen | ->].
      * rewrite bool_decide_eq_false_2; [reflexivity|].
        intros ->. apply Hlen. reflexivity.
      * rewrite andb_false_r. reflexivity.
Qed.


(** ** The emitter's effects *)

Lemma bind_print {B} (s : string) (k : unit -> M B) (st : emit_state) :
  bind (print s) k st = k tt (mk_state (buf st ++ [s]) (ret_type_comment st)).
Proof. reflexivity. Qed.

Lemma state_eta (st : emit_state) : mk_state (buf st) (ret_type_comment st) = st.
Proof. by destruct st. Qed.

Create HintDb frames discriminated.

Lemma frames_ret {A} (a : A) : frames (ret a).
Proof. intros l. exists (Returned a), [], l. intros b. by rewrite app_nil_r. Qed.

Lemma frames_raise {A} (e : exn) : frames (@raise A e).
Proof. intros l. exists (Raised e), [], l. intros b. by rewrite app_nil_r. Qed.

Lemma frames_lift {A} (o : outcome A) : frames (lift o).
Proof. intros l. exists o, [], l. intros b. by rewrite app_nil_r. Qed.

Lemma frames_print (s : string) : frames (print s).
Proof. intros l. by exists (Returned tt), [s], l. Qed.

Lemma frames_assign (v : option string) : frames (assign_ret_type_comment v).
Proof.
  intros l. exists (Returned tt), [], (Some v). intros b.
  unfold assign_ret_type_comment. cbn. by rewrite app_nil_r.
Qed.

Lemma frames_read : frames read_ret_type_comment.
Proof.
  intros [v|].
  - exists (Returned v), [], (Some v). intros b. cbn. by rewrite app_nil_r.
  - exists (Raised UnboundLocalError), [], None. intros b. cbn.
    by rewrite app_nil_r.
Qed.

Lemma frames_bind {A B} (m : M A) (k : A -> M B) :
  frames m -> (forall a, frames (k a)) -> frames (bind m k).
Proof.
  intros Hm Hk l. destruct (Hm l) as ([a|e] & c & l' & Hrun).
  - destruct (Hk a l') as (r2 & c2 & l2 & Hrun2).
    exists r2, (c ++ c2), l2. intros b. unfold bind.
    rewrite Hrun, Hrun2. by rewrite app_assoc.
  - exists (Raised e), c, l'. intros b. unfold bind. by rewrite Hrun.
Qed.

Lemma frames_when (b : bool) (m : M unit) : frames m -> frames (when b m).
Proof. destruct b; [done | intros _; apply frames_ret]. Qed.

Lemma frames_for_each {A} (l : list A) (body : A -> M unit) :
  (forall x, frames (body x)) -> frames (for_each l body).
Proof.
  intros Hb. induction l as [|x l IH]; cbn [for_each].
  - apply frames_ret.
  - apply frames_bind; auto.
Qed.

#[local] Hint Resolve frames_ret frames_raise frames_lift frames_print
  frames_assign frames_read frames_when frames_for_each : frames.
#[local] Hint Extern 2 (frames (bind _ _)) =>
  apply frames_bind; [|intros ?] : frames.

Lemma frames_emit_function dups el id_py descr :
  frames (emit_function dups el id_py descr).
Proof.
  unfold emit_function.
  apply frames_bind; [auto with frames|]. intros looped.
  apply frames_bind.
  - destruct (Element.type el); [|auto with frames].
    destruct (format_as_python_type_extvalue _). auto with frames.
  - intros ret_type. auto 10 with frames.
Qed.

Lemma frames_emit_field el id_py descr : frames (emit_field el id_py descr).
Proof.
  unfold emit_field. destruct (format_as_python_type_extvalue _).
  auto with frames.
Qed.

Lemma frames_emit_element dups el : frames (emit_element dups el).
Proof.
  unfold emit_element.
  destruct (Element.is_function el);
    [apply frames_emit_function | apply frames_emit_field].
Qed.

Lemma frames_format_type_description d : frames (format_type_description d).
Proof. destruct d; cbn; auto with frames. Qed.

#[local] Hint Resolve frames_emit_element frames_format_type_description : frames.

Lemma frames_emit_type_header each_type : frames (emit_type_header each_type).
Proof. unfold emit_type_header. auto 10 with frames. Qed.

#[local] Hint Resolve frames_emit_type_header : frames.

Lemma frames_emit_type each_type : frames (emit_type each_type).
Proof.
  unfold emit_type. destruct (negb (is_global each_type)); auto 10 with frames.
Qed.

Lemma frames_emit_header : frames emit_header.
Proof. unfold emit_header. auto 10 with frames. Qed.

#[local] Hint Resolve frames_emit_type frames_emit_header : frames.

Lemma frames_main doc : frames (main_write_framscript_part_of_the_stub doc).
Proof. unfold main_write_framscript_part_of_the_stub. auto 10 with frames. Qed.

(** A completed run of a framing computation appended some entries. *)
Lemma frames_run {A} (m : M A) (st st' : emit_state) (r : outcome A) :
  frames m -> m st = (r, st') -> exists chunks, buf st' = buf st ++ chunks.
Proof.
  intros Hm Hrun. destruct (Hm (ret_type_comment st)) as (r' & c & l' & H).
  specialize (H (buf st)). rewrite state_eta in H. rewrite Hrun in H.
  exists c. by inversion H.
Qed.

Lemma render_app (a b : list string) :
  render (a ++ b) = render a +:+ render b.
Proof.
  induction a as [|x a IH]; [reflexivity|].
  cbn [app render foldr]. fold (render (a ++ b)). fold (render a).
  by rewrite IH, !append_assoc.
Qed.


(** What a function element prints, by cases on the argument loop, the
    declared type and the binding of [ret_type_comment]. *)
Lemma emit_function_run dups el id_py descr st :
  emit_function dups el id_py descr st =
    match args_loop (Element.get_arguments el) [] ∅ with
    | Raised e => (Raised e, st)
    | Returned looped =>
        let args := PyStr.join ", " (fst looped) in
        let body := [format_description_as_docstring descr 8; "        ..."; ""] in
        match Element.type el with
        | Some el_type =>
            let mapped := format_as_python_type_extvalue (Some el_type) in
            let comment :=
              if truthy (snd mapped)
              then Some ("  # returns " +:+ str_of (snd mapped))
              else snd mapped in
            (Returned tt,
             mk_state
               (buf st ++ function_markers dups el
                ++ [signature_line id_py args (" -> " +:+ fst mapped)
                      (str_of comment)]
                ++ body)
               (Some comment))
        | None =>
            match ret_type_comment st with
            | Some comment =>
                (Returned tt,
                 mk_state
                   (buf st ++ function_markers dups el
                    ++ [signature_line id_py args "" (str_of comment)] ++ body)
                   (Some comment))
            | None =>
                (Raised UnboundLocalError,
                 mk_state (buf st ++ function_markers dups el) None)
            end
        end
    end.
Proof.
  unfold emit_function, function_markers, bind at 1, lift.
  destruct (args_loop _ _ _) as [looped|e]; [|reflexivity].
  destruct st as [b l]. cbn [buf ret_type_comment].
  destruct (Element.type el) as [el_type|].
  - destruct (format_as_python_type_extvalue (Some el_type)) as [rt c].
    cbn [fst snd].
    destruct (Element.is_deprecated el),
      (bool_decide (Element.id el ∈ dups));
      cbn; unfold print; cbn; rewrite <- ?app_assoc; reflexivity.
  - destruct l as [comment|];
      destruct (Element.is_deprecated el),
        (bool_decide (Element.id el ∈ dups));
      cbn; unfold print; cbn; rewrite <- ?app_assoc; reflexivity.
Qed.

Lemma emit_field_run el id_py descr st :
  emit_field el id_py descr st =
    let mapped := format_as_python_type_extvalue (Element.type el) in
    (Returned tt,
     mk_state
       (buf st
        ++ [("    " +:+ id_py +:+ ": " +:+ fst mapped +:+
             (if truthy (snd mapped) then "  # " +:+ str_of (snd mapped) else ""))]
        ++ (if PyStr.truthy descr
            then [format_description_as_docstring descr 4] else []))
       (ret_type_comment st)).
Proof.
  unfold emit_field.
  destruct (format_as_python_type_extvalue _) as [ty c]. cbn [fst snd].
  destruct st as [b l]. destruct (PyStr.truthy descr); cbn; unfold print; cbn;
    rewrite <- ?app_assoc, ?app_nil_r; reflexivity.
Qed.

(** ** The argument loop *)

Lemma args_loop_app (l1 l2 : list Argument.t) args repeats :
  args_loop (l1 ++ l2) args repeats =
    match args_loop l1 args repeats with
    | Returned (args', repeats') => args_loop l2 args' repeats'
    | Raised e => Raised e
    end.
Proof.
  revert args repeats. induction l1 as [|arg l1 IH]; intros args repeats.
  - reflexivity.
  - cbn [app args_loop].
    destruct (arg_iteration arg args repeats) as [[args' repeats']|e];
      [apply IH | reflexivity].
Qed.

Lemma arg_iteration_empty_description arg args repeats :
  truthy (Argument.description arg) = false ->
  arg_iteration arg args repeats =
    Returned
      (args ++ [PyStr.replace " " "_" (arg_legal_name arg repeats) +:+ ": "
                +:+ arg_annotation arg],
       {[arg_legal_name arg repeats]} ∪ repeats).
Proof. intros H. unfold arg_iteration. by rewrite H. Qed.

(** With empty descriptions the loop completes: one entry per argument
    is appended, and the set of names only grows, holding afterwards the
    base name of every argument it went through. *)
Lemma args_loop_completes (l : list Argument.t) args repeats :
  descriptions_empty l ->
  exists outs repeats',
    args_loop l args repeats = Returned (args ++ outs, repeats') /\
    length outs = length l /\
    repeats ⊆ repeats' /\
    (forall arg, arg ∈ l -> arg_base_name arg ∈ repeats').
Proof.
  revert args repeats. induction l as [|arg l IH]; intros args repeats Hl.
  - exists [], repeats. rewrite app_nil_r. repeat split; [set_solver..].
  - apply Forall_cons in Hl as [Harg Hl]. cbn [args_loop].
    rewrite arg_iteration_empty_description by done.
    destruct (IH (args ++ [PyStr.replace " " "_" (arg_legal_name arg repeats)
                            +:+ ": " +:+ arg_annotation arg])
                 ({[arg_legal_name arg repeats]} ∪ repeats) Hl)
      as (outs & repeats' & Hrun & Hlen & Hsub & Hin).
    eexists (_ :: outs), repeats'. rewrite Hrun, <- app_assoc.
    split; [reflexivity|]. split; [cbn; by rewrite Hlen|].
    split; [set_solver|].
    intros arg' [->|Hin']%elem_of_cons; [|by apply Hin].
    apply Hsub. unfold arg_legal_name. case_bool_decide; set_solver.
Qed.

(** The loop can only fail on the assertion, and does so exactly when some
    description is not empty. *)
Lemma args_loop_raises (l : list Argument.t) args repeats :
  ¬ descriptions_empty l -> args_loop l args repeats = Raised AssertionError.
Proof.
  revert args repeats. induction l as [|arg l IH]; intros args repeats Hl.
  - destruct Hl. constructor.
  - cbn [args_loop]. unfold arg_iteration.
    destruct (truthy (Argument.description arg)) eqn:Harg; [reflexivity|].
    apply IH. intros Hl'. apply Hl. by constructor.
Qed.

Lemma descriptions_empty_dec (l : list Argument.t) :
  descriptions_empty l \/ ¬ descriptions_empty l.
Proof.
  destruct (decide (Forall (fun arg => truthy (Argument.description arg) = false) l));
    [left | right]; done.
Qed.

Lemma args_loop_returned (l : list Argument.t) args repeats looped :
  args_loop l args repeats = Returned looped -> descriptions_empty l.
Proof.
  intros Hrun. destruct (descriptions_empty_dec l) as [|Hne]; [done|].
  rewrite (args_loop_raises l args repeats Hne) in Hrun. discriminate.
Qed.


(** ** Duplicate ids *)

Lemma Counter_foldl_lookup (ids : list string) (m : gmap string nat) (k : string) :
  foldl (fun m k => <[k := S (default 0%nat (m !! k))]> m) m ids !! k =
    match length (filter (fun x => x = k) ids) with
    | O => m !! k
    | S n => Some (default 0%nat (m !! k) + S n)%nat
    end.
Proof.
  revert m. induction ids as [|x ids IH]; intros m; [reflexivity|].
  cbn [foldl]. rewrite IH, filter_cons.
  destruct (decide (x = k)) as [->|Hne].
  - rewrite lookup_insert_eq. cbn [default length].
    destruct (length (filter (fun x => x = k) ids)); f_equal;
      unfold id; generalize (default 0%nat (m !! k)); intros d; lia.
  - by rewrite lookup_insert_ne.
Qed.

Lemma Counter_lookup (ids : list string) (k : string) :
  Counter ids !! k =
    match length (filter (fun x => x = k) ids) with
    | O => None
    | S n => Some (S n)
    end.
Proof. unfold Counter. rewrite Counter_foldl_lookup, lookup_empty. done. Qed.

Lemma occurrences_pos (ids : list string) (k : string) :
  (0 < length (filter (fun x => x = k) ids))%nat <-> k ∈ ids.
Proof.
  split.
  - intros H. destruct (filter (fun x => x = k) ids) as [|y l] eqn:Hf;
      [cbn in H; lia|].
    assert (y ∈ filter (fun x => x = k) ids) as Hy by (rewrite Hf; left).
    apply list_elem_of_filter in Hy as [-> Hy]. done.
  - intros H.
    assert (k ∈ filter (fun x => x = k) ids) as Hk
      by (by apply list_elem_of_filter).
    destruct (filter (fun x => x = k) ids); [by apply elem_of_nil in Hk|].
    cbn. lia.
Qed.

Lemma duplicate_elements_count (elements : list Element.t) (k : string) :
  k ∈ duplicate_elements elements <->
  (1 < length (filter (fun x => x = k) (Element.id <$> elements)))%nat.
Proof.
  unfold duplicate_elements. rewrite elem_of_dom. unfold is_Some.
  setoid_rewrite map_lookup_filter_Some. setoid_rewrite Counter_lookup.
  cbn [snd].
  destruct (length (filter (fun x => x = k) (Element.id <$> elements))) as [|n].
  - split; [intros (v & [=] & _) | lia].
  - split; [intros (v & [= <-] & Hv); lia | intros H; eauto].
Qed.

(** An id is in the duplicate set exactly when it occurs at two different
    positions of the element list. *)
Lemma duplicate_elements_spec (elements : list Element.t) (i : nat) (el : Element.t) :
  elements !! i = Some el ->
  Element.id el ∈ duplicate_elements elements <->
  exists j el', j ≠ i /\ elements !! j = Some el' /\ Element.id el' = Element.id el.
Proof.
  intros Hi. rewrite duplicate_elements_count.
  rewrite <- (take_drop_middle elements i el Hi) at 1.
  rewrite fmap_app, fmap_cons, filter_app, filter_cons_True, length_app by done.
  cbn [length].
  assert (forall n m, (1 < n + S m)%nat <-> (0 < n \/ 0 < m)%nat) as Hcount
    by (intros; lia).
  rewrite Hcount, !occurrences_pos, !list_elem_of_fmap. clear Hcount. split.
  - intros [(el' & Hid & Hin) | (el' & Hid & Hin)].
    + apply list_elem_of_lookup in Hin as [j Hj].
      rewrite lookup_take_Some in Hj. destruct Hj as [Hj Hji].
      exists j, el'. repeat split; [lia | done | done].
    + apply list_elem_of_lookup in Hin as [j Hj].
      rewrite lookup_drop in Hj.
      exists (S i + j)%nat, el'. repeat split; [lia | done | done].
  - intros (j & el' & Hne & Hj & Hid).
    destruct (decide (j < i)%nat) as [Hlt|Hge].
    + left. exists el'. split; [done|]. apply list_elem_of_lookup. exists j.
      rewrite lookup_take_Some. split; [done | lia].
    + right. exists el'. split; [done|]. apply list_elem_of_lookup.
      exists (j - S i)%nat. rewrite lookup_drop.
      replace (S i + (j - S i))%nat with j by lia. done.
Qed.

(** ** Shapes of the printed entries *)

Lemma join_cons (sep x : string) (l : list string) :
  exists rest, PyStr.join sep (x :: l) = x +:+ rest.
Proof.
  destruct l as [|y l]; cbn [PyStr.join]; eauto.
  exists "". by rewrite append_nil_r.
Qed.

(** A formatted docstring is empty, or starts with the padding followed by
    a quote or the raw prefix. *)
Lemma docstring_shape (desc : string) (indent : Z) :
  format_description_as_docstring desc indent = "" \/
  exists q rest,
    format_description_as_docstring desc indent
    = PyStr.mul " " indent +:+ String q rest /\
    (q = PyStr.squote \/ q = PyStr.dquote \/ q = "r"%char).
Proof.
  rewrite format_description_as_docstring_unfold.
  destruct (PyStr.splitlines (PyStr.strip desc)) as [|ln more]; [by left|].
  right. destruct (bool_decide (more = []) && _).
  - unfold PyStr.repr.
    destruct (PyStr.contains PyStr.squote ln && _); eauto 6.
  - destruct (join_cons nl
                (PyStr.mul " " indent +:+
                   (if PyStr.contains PyStr.backslash desc
                    then "r" +:+ triple_quote else triple_quote))
                (((fun l => PyStr.mul " " indent +:+ l) <$> (ln :: more))
                 ++ [PyStr.mul " " indent +:+ triple_quote])) as [rest ->].
    rewrite append_assoc.
    destruct (PyStr.contains PyStr.backslash desc);
      unfold triple_quote; rewrite !append_cons; eauto 6.
Qed.

Lemma overload_marker_not_signature (id_py args ret_type comment : string) :
  "    @overload" <> signature_line id_py args ret_type comment.
Proof. unfold signature_line. rewrite !append_cons. discriminate. Qed.

Lemma overload_marker_not_docstring (desc : string) (indent : Z) :
  indent = 4%Z \/ indent = 8%Z ->
  "    @overload" <> format_description_as_docstring desc indent.
Proof.
  intros Hindent.
  destruct (docstring_shape desc indent) as [-> | (q & rest & -> & Hq)];
    [discriminate|].
  destruct Hindent as [-> | ->].
  - change (PyStr.mul " " 4) with "    ". rewrite !append_cons, append_nil_l.
    intros [= Hq' _]. subst q. destruct Hq as [Hq | [Hq | Hq]]; discriminate Hq.
  - change (PyStr.mul " " 8) with "        ". rewrite !append_cons. discriminate.
Qed.

Lemma overload_marker_not_field_line (id_py rest : string) :
  "    @overload" <> "    " +:+ id_py +:+ ": " +:+ rest.
Proof.
  rewrite !append_cons, append_nil_l. intros [= H].
  apply (f_equal (PyStr.contains ":")) in H.
  rewrite contains_app in H. cbn in H. rewrite orb_true_r in H. discriminate.
Qed.

Lemma overload_marker_in_function_markers dups el :
  "    @overload" ∈ function_markers dups el <-> Element.id el ∈ dups.
Proof.
  unfold function_markers. rewrite !elem_of_app. split.
  - intros [Hm | [Hm | Hm]].
    + destruct (Element.is_deprecated el);
        [apply list_elem_of_singleton in Hm; discriminate
        | by apply elem_of_nil in Hm].
    + case_bool_decide; [done | by apply elem_of_nil in Hm].
    + apply list_elem_of_singleton in Hm. discriminate.
  - intros Hd. right. left. rewrite bool_decide_eq_true_2 by done.
    apply list_elem_of_singleton. reflexivity.
Qed.

(** C4, as the code has it: the entries printed for the element at position [i] of a
    Type contain the overload marker exactly when the element is a
    function whose arguments pass the assertion and some element at
    another position of the same list has the same id.  The starting
    state [st] is arbitrary: whatever other Types printed before has no
    influence.  Field elements never carry the marker. *)
Theorem overload_marker_iff_duplicate_id
    (elements : list Element.t) (i : nat) (el : Element.t) (st : emit_state) :
  elements !! i = Some el ->
  exists chunks : list string,
    buf (emit_element (duplicate_elements elements) el st).2 = buf st ++ chunks /\
    ("    @overload" ∈ chunks <->
     Element.is_function el = true /\
     descriptions_empty (Element.get_arguments el) /\
     exists j el', j ≠ i /\ elements !! j = Some el' /\
                   Element.id el' = Element.id el).
Proof.
  intros Hi. pose proof (duplicate_elements_spec elements i el Hi) as Hdup.
  unfold emit_element. destruct (Element.is_function el).
  - rewrite emit_function_run.
    destruct (args_loop (Element.get_arguments el) [] ∅) as [looped|e] eqn:Hloop.
    + apply args_loop_returned in Hloop.
      assert (forall line body,
                 "    @overload" <> line ->
                 "    @overload" <> body ->
                 "    @overload" ∈
                   function_markers (duplicate_elements elements) el
                   ++ [line] ++ [body; "        ..."; ""] <->
                 Element.id el ∈ duplicate_elements elements) as Hin.
      { intros line body Hline Hbody.
        rewrite <- overload_marker_in_function_markers.
        rewrite !elem_of_app, !elem_of_cons, elem_of_nil. split; [|tauto].
        intros [H | [[H|[]] | [H | [H | [H | []]]]]]; done. }
      cbn zeta. destruct (Element.type el) as [el_type|].
      * eexists. split; [reflexivity|].
        rewrite Hin, Hdup;
          [tauto | apply overload_marker_not_signature
          | apply overload_marker_not_docstring; by right].
      * destruct (ret_type_comment st) as [comment|].
        -- eexists. split; [reflexivity|].
           rewrite Hin, Hdup;
             [tauto | apply overload_marker_not_signature
             | apply overload_marker_not_docstring; by right].
        -- eexists. split; [reflexivity|].
           rewrite overload_marker_in_function_markers, Hdup. tauto.
    + exists []. cbn [snd]. rewrite app_nil_r. split; [done|]. split.
      * intros H. by apply elem_of_nil in H.
      * intros (_ & Hempty & _).
        destruct (args_loop_completes _ [] ∅ Hempty) as (? & ? & Hrun & _).
        rewrite Hrun in Hloop. discriminate.
  - rewrite emit_field_run. cbn zeta. eexists. split; [reflexivity|]. split.
    + intros H. exfalso. rewrite !elem_of_app, elem_of_cons, elem_of_nil in H.
      destruct H as [[H | []] | H].
      * by apply overload_marker_not_field_line in H.
      * destruct (PyStr.truthy _); [|by apply elem_of_nil in H].
        apply list_elem_of_singleton in H.
        apply overload_marker_not_docstring in H; [done | by left].
    + intros [[=] _].
Qed.

(** ** Function elements *)

(** C6, as the code has it: a function element with a declared type whose arguments
    pass the assertion is emitted completely, and its entries are, in this
    order: the deprecation marker when it is deprecated, the overload
    marker when its id is in the duplicate set of the Type, the
    static-call marker, the signature, the formatted description at
    indentation 8 (the empty string when there is none), the placeholder
    statement, which is always printed, and an empty entry. *)
Theorem function_lines_in_order
    (elements : list Element.t) (el : Element.t) (el_type : string)
    (st : emit_state) :
  Element.is_function el = true ->
  Element.type el = Some el_type ->
  descriptions_empty (Element.get_arguments el) ->
  exists (args : list string) (seen : gset string) (st' : emit_state),
    args_loop (Element.get_arguments el) [] ∅ = Returned (args, seen) /\
    emit_element (duplicate_elements elements) el st = (Returned tt, st') /\
    let mapped := format_as_python_type_extvalue (Some el_type) in
    buf st' =
      buf st
      ++ (if Element.is_deprecated el then ["    @deprecated"] else [])
      ++ (if bool_decide (Element.id el ∈ duplicate_elements elements)
          then ["    @overload"] else [])
      ++ ["    @staticmethod";
          signature_line (element_id_py el) (PyStr.join ", " args)
            (" -> " +:+ fst mapped)
            (str_of (if truthy (snd mapped)
                     then Some ("  # returns " +:+ str_of (snd mapped))
                     else snd mapped));
          format_description_as_docstring (element_descr el) 8;
          "        ...";
          ""].
Proof.
  intros Hfun Htype Hempty.
  destruct (args_loop_completes _ [] ∅ Hempty) as (args & seen & Hrun & _).
  cbn [app] in Hrun. exists args, seen.
  unfold emit_element. rewrite Hfun, emit_function_run, Hrun, Htype.
  cbn zeta. eexists. split; [reflexivity|]. split; [reflexivity|].
  cbn [buf fst]. unfold function_markers. by rewrite <- !app_assoc.
Qed.

(** ** The assertion on argument descriptions *)

Lemma emit_element_assertion dups el st :
  Element.is_function el = true ->
  ¬ descriptions_empty (Element.get_arguments el) ->
  emit_element dups el st = (Raised AssertionError, st).
Proof.
  intros Hfun Hne. unfold emit_element.
  by rewrite Hfun, emit_function_run, (args_loop_raises _ [] ∅ Hne).
Qed.

Lemma bind_returned {A B} (m : M A) (k : A -> M B) st a st' :
  m st = (Returned a, st') -> bind m k st = k a st'.
Proof. intros H. unfold bind. by rewrite H. Qed.

Lemma bind_raised {A B} (m : M A) (k : A -> M B) st e st' :
  m st = (Raised e, st') -> bind m k st = (Raised e, st').
Proof. intros H. unfold bind. by rewrite H. Qed.

Lemma bind_assoc {A B C} (m : M A) (k : A -> M B) (h : B -> M C) st :
  bind (bind m k) h st = bind m (fun a => bind (k a) h) st.
Proof. unfold bind. by destruct (m st) as [[a|e] st1]. Qed.

(** Run the computation [m] from [st], and take both outcomes through the
    binds that consume it. *)
Tactic Notation "run_step" constr(m) constr(st) "as" ident(st') :=
  let H := fresh "Hrun" in
  destruct (m st) as [[[]|?] st'] eqn:H;
  [ repeat rewrite (bind_returned m _ st _ _ H)
  | repeat rewrite (bind_raised m _ st _ _ H) ];
  cbv beta.

Lemma for_each_app {A} (l1 l2 : list A) (body : A -> M unit) st :
  for_each (l1 ++ l2) body st =
    bind (for_each l1 body) (fun _ => for_each l2 body) st.
Proof.
  revert st. induction l1 as [|x l1 IH]; intros st; [reflexivity|].
  cbn [app for_each]. rewrite bind_assoc.
  run_step (body x) st as st1; [apply IH | reflexivity].
Qed.

Lemma bind_for_each_app {A B} (l1 l2 : list A) (body : A -> M unit)
    (k : unit -> M B) st :
  bind (for_each (l1 ++ l2) body) k st =
    bind (for_each l1 body) (fun _ => bind (for_each l2 body) k) st.
Proof.
  rewrite <- bind_assoc. unfold bind at 1 2. by rewrite for_each_app.
Qed.

Lemma is_global_context (each_type : TypeDecl.t) :
  is_global each_type = true <-> TypeDecl.context each_type = GlobalContext.
Proof.
  unfold is_global. destruct (TypeDecl.context each_type); split;
    first [reflexivity | discriminate | (intros _; vm_compute; reflexivity)
          | (vm_compute; discriminate) ].
Qed.

(** The run up to an element whose assertion fails decides the whole run. *)
Lemma abort_at_element (doc : FramscriptDoc.t)
    (types_before types_after : list TypeDecl.t) (each_type : TypeDecl.t)
    (elements_before elements_after : list Element.t) (el : Element.t)
    (st0 : emit_state) :
  FramscriptDoc.types doc = types_before ++ each_type :: types_after ->
  TypeDecl.context each_type = GlobalContext ->
  TypeDecl.elements each_type = elements_before ++ el :: elements_after ->
  Element.is_function el = true ->
  ¬ descriptions_empty (Element.get_arguments el) ->
  main_write_framscript_part_of_the_stub doc st0 =
    match emission_up_to types_before each_type elements_before st0 with
    | (Returned _, st) => (Raised AssertionError, st)
    | (Raised e, st) => (Raised e, st)
    end.
Proof.
  intros Htypes Hctx Hels Hfun Hne.
  unfold main_write_framscript_part_of_the_stub, emission_up_to.
  rewrite Htypes.
  run_step emit_header st0 as st1; [|done].
  rewrite for_each_app.
  run_step (for_each types_before emit_type) st1 as st2; [|done].
  cbn [for_each]. unfold emit_type at 1.
  apply is_global_context in Hctx. rewrite Hctx. cbn [negb].
  rewrite !bind_assoc.
  run_step (emit_type_header each_type) st2 as st3; [|done].
  rewrite !bind_assoc, Hels, bind_for_each_app.
  run_step (for_each elements_before
              (emit_element (duplicate_elements
                               (elements_before ++ el :: elements_after)))) st3
    as st4; [|done].
  cbn [for_each]. rewrite !bind_assoc.
  by rewrite (bind_raised _ _ _ _ _ (emit_element_assertion _ el st4 Hfun Hne)).
Qed.


(** ** Order and filtering *)

Lemma for_each_emit_type_filter (types : list TypeDecl.t) (st : emit_state) :
  for_each types emit_type st =
    for_each (filter (fun T => TypeDecl.context T = GlobalContext) types)
      emit_type st.
Proof.
  revert st. induction types as [|T types IH]; intros st; [reflexivity|].
  rewrite filter_cons. destruct (decide (TypeDecl.context T = GlobalContext)) as [Hg|Hg].
  - cbn [for_each]. run_step (emit_type T) st as st1; [apply IH | reflexivity].
  - cbn [for_each]. unfold emit_type at 1.
    destruct (is_global T) eqn:HT; [by apply is_global_context in HT|].
    cbn [negb]. apply IH.
Qed.

(** A completed loop printed one block per item, in the order of the list. *)
Lemma for_each_blocks {A} (body : A -> M unit) (l : list A) (st st' : emit_state) :
  (forall x, frames (body x)) ->
  for_each l body st = (Returned tt, st') ->
  exists blocks,
    buf st' = buf st ++ concat blocks /\
    Forall2 (fun x b => emits (body x) b) l blocks.
Proof.
  intros Hframes. revert st. induction l as [|x l IH]; intros st Hrun.
  - injection Hrun as <-. exists []. by rewrite app_nil_r.
  - cbn [for_each] in Hrun.
    destruct (body x st) as [[[]|e] st1] eqn:Hx.
    + rewrite (bind_returned _ _ _ _ _ Hx) in Hrun.
      destruct (frames_run _ _ _ _ (Hframes x) Hx) as [b Hb].
      destruct (IH st1 Hrun) as (blocks & Hbuf & Hall).
      exists (b :: blocks). split.
      * rewrite Hbuf, Hb. cbn [concat]. by rewrite app_assoc.
      * constructor; [|done]. by exists st, st1.
    + rewrite (bind_raised _ _ _ _ _ Hx) in Hrun. discriminate.
Qed.

Lemma emit_header_run (st : emit_state) :
  emit_header st =
    (Returned tt, mk_state (buf st ++ stub_header) (ret_type_comment st)).
Proof.
  unfold emit_header, stub_header. rewrite !bind_print. unfold print.
  cbn [buf ret_type_comment]. by rewrite <- !app_assoc.
Qed.

Lemma emit_type_header_run (each_type : TypeDecl.t) (st : emit_state) :
  emit_type_header each_type st =
    match TypeDecl.description each_type with
    | Some desc =>
        (Returned tt,
         mk_state
           (buf st ++ ["class " +:+ TypeDecl.name each_type +:+ "(ExtValue):";
                       format_description_as_docstring desc 4; ""])
           (ret_type_comment st))
    | None =>
        (Raised AttributeError,
         mk_state
           (buf st ++ ["class " +:+ TypeDecl.name each_type +:+ "(ExtValue):";
                       missing_docstring])
           (ret_type_comment st))
    end.
Proof.
  unfold emit_type_header. rewrite bind_print.
  destruct (TypeDecl.description each_type) as [desc|]; cbn;
    unfold print; cbn; by rewrite <- !app_assoc.
Qed.

Lemma emit_type_block (each_type : TypeDecl.t) (block : list string) :
  TypeDecl.context each_type = GlobalContext ->
  emits (emit_type each_type) block -> type_block each_type block.
Proof.
  intros Hctx (st & st' & Hrun & Hbuf).
  unfold emit_type in Hrun. apply is_global_context in Hctx.
  rewrite Hctx in Hrun. cbn [negb] in Hrun.
  pose proof (emit_type_header_run each_type st) as Hhead.
  destruct (TypeDecl.description each_type) as [desc|] eqn:Hdesc.
  - rewrite (bind_returned _ _ _ _ _ Hhead) in Hrun. cbv beta in Hrun.
    match type of Hrun with
    | bind ?m _ ?s = _ => destruct (m s) as [[[]|e] st2] eqn:Hels
    end.
    + rewrite (bind_returned _ _ _ _ _ Hels) in Hrun.
      injection Hrun as <-.
      apply for_each_blocks in Hels as (blocks & Hb & Hall);
        [|intros; apply frames_emit_element].
      exists desc, blocks. split; [exact Hdesc|]. split; [|exact Hall].
      cbn [buf] in Hbuf, Hb. rewrite Hb in Hbuf.
      rewrite <- !app_assoc in Hbuf. by apply app_inv_head in Hbuf.
    + rewrite (bind_raised _ _ _ _ _ Hels) in Hrun. discriminate.
  - rewrite (bind_raised _ _ _ _ _ Hhead) in Hrun. discriminate.
Qed.


(** ** The statements on concrete schemas *)

Lemma format_as_python_type_extvalue_examples :
  format_as_python_type_extvalue (Some "integer") = ("ExtValue[int]", Some "") /\
  format_as_python_type_extvalue (Some "untyped") = ("ExtValue", Some "untyped") /\
  format_as_python_type_extvalue (Some "Creature") = ("ExtValue", Some "Creature").
Proof. repeat split. Qed.

Lemma format_description_as_docstring_cases_witness :
  format_description_as_docstring "   " 4 = "" /\
  format_description_as_docstring " Move the creature " 8
  = "        'Move the creature'" /\
  format_description_as_docstring "  a\b  " 4
  = PyStr.join nl ["    r" +:+ triple_quote; "    a\b"; "    " +:+ triple_quote].
Proof.
  split; [|split].
  - apply (proj1 (format_description_as_docstring_cases "   " 4)).
    reflexivity.
  - exact (proj1 (proj1 (proj2 (format_description_as_docstring_cases
                                  " Move the creature " 8))
                    "Move the creature" eq_refl eq_refl)).
  - apply (proj2 (proj2 (format_description_as_docstring_cases "  a\b  " 4))).
    + vm_compute. discriminate.
    + right. reflexivity.
Defined.


Lemma overload_marker_iff_duplicate_id_witness :
  exists chunks : list string,
    buf (emit_element (duplicate_elements [move_noargs; move_float]) move_float
           (mk_state [] None)).2 = [] ++ chunks /\
    ("    @overload" ∈ chunks <->
     Element.is_function move_float = true /\
     descriptions_empty (Element.get_arguments move_float) /\
     exists j el', j ≠ 1%nat /\ [move_noargs; move_float] !! j = Some el' /\
                   Element.id el' = Element.id move_float).
Proof.
  apply (overload_marker_iff_duplicate_id [move_noargs; move_float] 1
           move_float (mk_state [] None)).
  reflexivity.
Defined.

(** Two fields of one Type share the id [size]; neither is printed with the
    overload marker. *)
Lemma duplicate_field_no_overload_counterexample :
  (exists j el', j ≠ 0%nat /\ [size_field; size_field] !! j = Some el' /\
                 Element.id el' = Element.id size_field) /\
  buf (emit_element (duplicate_elements [size_field; size_field]) size_field
         (mk_state [] None)).2 = ["    size: ExtValue[int]"] /\
  "    @overload" ∉
    buf (emit_element (duplicate_elements [size_field; size_field]) size_field
           (mk_state [] None)).2.
Proof.
  assert (buf (emit_element (duplicate_elements [size_field; size_field])
                 size_field (mk_state [] None)).2
          = ["    size: ExtValue[int]"]) as Hbuf by (vm_compute; reflexivity).
  split; [by exists 1%nat, size_field|]. split; [exact Hbuf|].
  rewrite Hbuf. intros H. apply list_elem_of_singleton in H. discriminate.
Qed.

Lemma function_lines_in_order_witness :
  exists (args : list string) (seen : gset string) (st' : emit_state),
    args_loop (Element.get_arguments move_float) [] ∅ = Returned (args, seen) /\
    emit_element (duplicate_elements [move_noargs; move_float]) move_float
      (mk_state [] None) = (Returned tt, st') /\
    buf st' =
      []
      ++ (if Element.is_deprecated move_float then ["    @deprecated"] else [])
      ++ (if bool_decide (Element.id move_float
                          ∈ duplicate_elements [move_noargs; move_float])
          then ["    @overload"] else [])
      ++ ["    @staticmethod";
          signature_line (element_id_py move_float) (PyStr.join ", " args)
            (" -> " +:+ fst (format_as_python_type_extvalue (Some "void")))
            (str_of
               (if truthy (snd (format_as_python_type_extvalue (Some "void")))
                then Some ("  # returns " +:+
                           str_of (snd (format_as_python_type_extvalue
                                          (Some "void"))))
                else snd (format_as_python_type_extvalue (Some "void"))));
          format_description_as_docstring (element_descr move_float) 8;
          "        ...";
          ""].
Proof.
  apply (function_lines_in_order [move_noargs; move_float] move_float "void"
           (mk_state [] None)).
  - reflexivity.
  - reflexivity.
  - repeat constructor.
Defined.

(** A function with a description: the placeholder statement is printed
    after the docstring, so the body is not the docstring alone. *)
Lemma placeholder_after_docstring_counterexample :
  element_descr described_function = "Returns the world name" /\
  emit_element ∅ described_function (mk_state [] None) =
    (Returned tt,
     mk_state
       ["    @staticmethod";
        "    def getName() -> ExtValue[str]:";
        "        'Returns the world name'";
        "        ...";
        ""]
       (Some (Some ""))) /\
  "        ..." ∈ buf (emit_element ∅ described_function (mk_state [] None)).2.
Proof.
  assert (emit_element ∅ described_function (mk_state [] None) =
          (Returned tt,
           mk_state
             ["    @staticmethod";
              "    def getName() -> ExtValue[str]:";
              "        'Returns the world name'";
              "        ...";
              ""]
             (Some (Some "")))) as Hrun by (vm_compute; reflexivity).
  split; [reflexivity|]. split; [exact Hrun|].
  rewrite Hrun. cbn [snd buf]. do 3 right. left.
Qed.




(** ** Missing Type descriptions *)

(** C8, on the failing inputs: a global Type whose description is the empty
    string is emitted with an empty entry where its documentation would
    be, and no placeholder; with the description [None] the placeholder
    is printed, and the formatter call that follows raises. *)
Theorem empty_type_description_prints_no_placeholder :
  run_emitter undescribed_doc [] =
    (Returned tt, stub_header ++ ["class World(ExtValue):"; ""; ""; ""]) /\
  (missing_docstring ∉ (run_emitter undescribed_doc []).2) /\
  run_emitter none_description_doc [] =
    (Raised AttributeError,
     stub_header ++ ["class World(ExtValue):"; missing_docstring]).
Proof.
  assert (run_emitter undescribed_doc [] =
          (Returned tt, stub_header ++ ["class World(ExtValue):"; ""; ""; ""]))
    as Hrun by (vm_compute; reflexivity).
  split; [exact Hrun|]. split; [|vm_compute; reflexivity].
  rewrite Hrun. cbn [snd]. unfold stub_header, missing_docstring.
  rewrite !append_cons, append_nil_l. cbn [app].
  rewrite !elem_of_cons, elem_of_nil.
  intros H. repeat destruct H as [H|H]; try discriminate H. done.
Qed.

(** ** The entry point *)



(** * Further properties of the code *)

(** ** Queries on a parsed document *)

(** X1: [find_type_by_name] returns the first Type of the document that
    has the name, and [None] exactly when no Type has it. *)
Theorem find_type_by_name_first (doc : FramscriptDoc.t) (name : string) :
  match find_type_by_name doc name with
  | Some type_obj =>
      exists before after,
        FramscriptDoc.types doc = before ++ type_obj :: after /\
        TypeDecl.name type_obj = name /\
        Forall (fun other => TypeDecl.name other <> name) before
  | None =>
      Forall (fun other => TypeDecl.name other <> name) (FramscriptDoc.types doc)
  end.
Proof.
  unfold find_type_by_name.
  induction (FramscriptDoc.types doc) as [|type_obj types IH]; cbn [find_type_in].
  - constructor.
  - case_bool_decide as Hname.
    + exists [], types. repeat split; [done | constructor].
    + destruct (find_type_in types name) as [found|].
      * destruct IH as (before & after & -> & Hfound & Hbefore).
        exists (type_obj :: before), after. repeat split; [done|].
        by constructor.
      * by constructor.
Qed.

Lemma get_all_functions_concat (doc : FramscriptDoc.t) :
  get_all_functions doc =
    concat ((fun type_obj =>
               List.filter Element.is_function (TypeDecl.elements type_obj))
              <$> FramscriptDoc.types doc).
Proof.
  unfold get_all_functions.
  assert (forall types acc,
             foldl (fun functions type_obj =>
                      functions ++ List.filter Element.is_function
                                     (TypeDecl.elements type_obj)) acc types
             = acc ++ concat ((fun type_obj =>
                                 List.filter Element.is_function
                                   (TypeDecl.elements type_obj)) <$> types))
    as Hfold.
  { induction types as [|type_obj types IH]; intros acc; cbn.
    - by rewrite app_nil_r.
    - by rewrite IH, app_assoc. }
  by rewrite Hfold.
Qed.

(** X2: [get_all_functions] holds exactly the elements marked as functions
    of the Types of the document. *)
Theorem get_all_functions_members (doc : FramscriptDoc.t) (el : Element.t) :
  el ∈ get_all_functions doc <->
  Element.is_function el = true /\
  exists type_obj,
    type_obj ∈ FramscriptDoc.types doc /\ el ∈ TypeDecl.elements type_obj.
Proof.
  rewrite get_all_functions_concat, list_elem_of_In, in_concat. split.
  - intros (fs & Hfs & Hel).
    apply list_elem_of_In, list_elem_of_fmap in Hfs as (type_obj & -> & HT).
    apply filter_In in Hel as [Hel Hfun].
    split; [done|]. exists type_obj. split; [done | by apply list_elem_of_In].
  - intros (Hfun & type_obj & HT & Hel). eexists. split.
    + apply list_elem_of_In, list_elem_of_fmap. by exists type_obj.
    + apply filter_In. split; [by apply list_elem_of_In | done].
Qed.

Lemma filter_with_args_foldl (elements acc : list Element.t) :
  foldl (fun functions_with_args elem =>
           if is_function_with_args elem
           then functions_with_args ++ [elem] else functions_with_args)
    acc elements
  = acc ++ List.filter is_function_with_args elements.
Proof.
  revert acc. induction elements as [|elem elements IH]; intros acc; cbn.
  - by rewrite app_nil_r.
  - rewrite IH. destruct (is_function_with_args elem); [|done].
    by rewrite <- app_assoc.
Qed.

Lemma is_function_with_args_alt (elem : Element.t) :
  is_function_with_args elem =
    Element.is_function elem
    && match Element.get_arguments elem with [] => false | _ => true end.
Proof.
  unfold is_function_with_args, Element.get_arguments.
  by destruct (Element.arguments elem) as [[[|a l]]|].
Qed.

Lemma filter_filter_with_args (elements : list Element.t) :
  List.filter is_function_with_args elements =
    List.filter
      (fun el => match Element.get_arguments el with [] => false | _ => true end)
      (List.filter Element.is_function elements).
Proof.
  induction elements as [|elem elements IH]; [done|]. cbn [List.filter].
  rewrite is_function_with_args_alt.
  destruct (Element.is_function elem); cbn [andb List.filter]; [|exact IH].
  destruct (Element.get_arguments elem); by rewrite IH.
Qed.

(** X3: the functions with arguments are the functions of
    [get_all_functions] whose argument list is not empty, in the same
    order. *)
Theorem get_functions_with_args_filter (doc : FramscriptDoc.t) :
  get_functions_with_args doc =
    List.filter
      (fun el => match Element.get_arguments el with [] => false | _ => true end)
      (get_all_functions doc).
Proof.
  rewrite get_all_functions_concat. unfold get_functions_with_args.
  assert (forall types acc,
             foldl
               (fun functions_with_args type_obj =>
                  foldl
                    (fun functions_with_args elem =>
                       if is_function_with_args elem
                       then functions_with_args ++ [elem]
                       else functions_with_args)
                    functions_with_args (TypeDecl.elements type_obj))
               acc types
             = acc ++
               List.filter
                 (fun el => match Element.get_arguments el with
                            | [] => false | _ => true end)
                 (concat ((fun type_obj =>
                             List.filter Element.is_function
                               (TypeDecl.elements type_obj)) <$> types)))
    as Hfold.
  { induction types as [|type_obj types IH]; intros acc; cbn [foldl fmap list_fmap concat].
    - by rewrite app_nil_r.
    - rewrite IH, filter_with_args_foldl, List.filter_app.
      by rewrite filter_filter_with_args, app_assoc. }
  by rewrite Hfold.
Qed.

(** ** Identifiers *)

(** X4: the identifier written for an element is never one of the reserved
    words of [INVALID_PY_IDENTS]; an id outside that list is written
    unchanged. *)
Theorem element_id_py_not_reserved (el : Element.t) :
  (element_id_py el ∉ INVALID_PY_IDENTS) /\
  (Element.id el ∉ INVALID_PY_IDENTS -> element_id_py el = Element.id el).
Proof.
  unfold element_id_py. case_bool_decide as Hin; [|done].
  split; [|done]. unfold INVALID_PY_IDENTS in *.
  rewrite !elem_of_cons, elem_of_nil in Hin.
  destruct Hin as [-> | [-> | [-> | [-> | []]]]];
    rewrite !elem_of_cons, elem_of_nil; intros H;
    repeat destruct H as [H|H]; discriminate || done.
Qed.

Lemma element_id_py_not_reserved_witness :
  element_id_py size_field = "size".
Proof.
  apply (proj2 (element_id_py_not_reserved size_field)).
  unfold INVALID_PY_IDENTS. cbn [Element.id size_field plain_element].
  rewrite !elem_of_cons, elem_of_nil. intros H.
  repeat destruct H as [H|H]; discriminate || done.
Defined.

Lemma contains_replace (old new : ascii) (s : string) :
  old <> new -> PyStr.contains old (PyStr.replace old new s) = false.
Proof.
  intros Hne. induction s as [|c s IH]; [done|].
  cbn [PyStr.replace PyStr.contains].
  destruct (decide (c = old)) as [->|Hc]; destruct (decide _); congruence.
Qed.

Lemma arg_base_name_head (arg : Argument.t) :
  exists c rest, arg_base_name arg = String c rest /\ PyStr.isdigit c = false.
Proof.
  unfold arg_base_name, or_else.
  destruct (Argument.name arg) as [[|c s]|]; cbn [PyStr.truthy].
  - by exists "_"%char, "".
  - destruct (PyStr.isdigit c) eqn:Hc; [by exists "a"%char, (String "_" (String c s))|].
    by exists c, s.
  - by exists "_"%char, "".
Qed.

(** X5: the name written for an argument is not empty, does not start with
    a digit and holds no space, whatever the argument and the names seen
    before it. *)
Theorem written_argument_name_shape (arg : Argument.t) (seen : gset string) :
  let written := PyStr.replace " " "_" (arg_legal_name arg seen) in
  PyStr.contains " " written = false /\
  exists c rest, written = String c rest /\ PyStr.isdigit c = false.
Proof.
  cbn zeta. split; [by apply contains_replace|].
  destruct (arg_base_name_head arg) as (c & rest & Hbase & Hdigit).
  unfold arg_legal_name. rewrite Hbase.
  assert (PyStr.isdigit (if decide (c = " "%char) then "_"%char else c) = false)
    as Hhead by (by destruct (decide (c = " "%char))).
  case_bool_decide; rewrite ?append_cons; cbn [PyStr.replace]; eauto.
Qed.

(** ** Duplicate ids *)

Lemma NoDup_occurrences (ids : list string) :
  NoDup ids <->
  forall k, (length (filter (fun x => x = k) ids) <= 1)%nat.
Proof.
  induction ids as [|x ids IH].
  - split; [intros _ k; cbn; lia | constructor].
  - rewrite NoDup_cons, IH. split.
    + intros [Hx Hids] k. rewrite filter_cons.
      destruct (decide (x = k)) as [<-|]; [|apply Hids].
      cbn [length]. pose proof (occurrences_pos ids x). 
      destruct (length (filter (fun y => y = x) ids)); [lia|].
      exfalso. apply Hx, H. lia.
    + intros Hk. split.
      * intros Hx%occurrences_pos. specialize (Hk x).
        rewrite filter_cons_True in Hk by done. cbn [length] in Hk. lia.
      * intros k. specialize (Hk k). rewrite filter_cons in Hk.
        destruct (decide (x = k)); cbn [length] in Hk; lia.
Qed.

(** X6: no id of a Type is in its duplicate set exactly when the ids of its
    elements are pairwise different; then no element gets the overload
    marker. *)
Theorem duplicate_elements_empty_iff (elements : list Element.t) :
  duplicate_elements elements = ∅ <-> NoDup (Element.id <$> elements).
Proof.
  rewrite NoDup_occurrences. split.
  - intros Hempty k.
    destruct (decide (1 < length (filter (fun x => x = k)
                                    (Element.id <$> elements)))%nat)
      as [Hdup|]; [|lia].
    apply duplicate_elements_count in Hdup. rewrite Hempty in Hdup.
    by apply not_elem_of_empty in Hdup.
  - intros Hk. apply set_eq. intros k. rewrite duplicate_elements_count.
    specialize (Hk k). split; [lia | by intros ?%not_elem_of_empty].
Qed.

(** ** The header *)

(** X7: whatever the document and however the run ends, the output buffer
    holds the four header entries right after what it held before: the
    header is printed first, and once. *)
Theorem header_printed_first (doc : FramscriptDoc.t) (out : list string) :
  exists rest : list string,
    (run_emitter doc out).2 = out ++ stub_header ++ rest.
Proof.
  unfold run_emitter, main_write_framscript_part_of_the_stub.
  rewrite (bind_returned _ _ _ _ _ (emit_header_run _)).
  destruct (for_each _ _ _) as [r st] eqn:Hloop. cbn [snd].
  destruct (frames_run _ _ _ _ (frames_for_each _ _ frames_emit_type) Hloop)
    as [rest Hrest].
  exists rest. cbn [buf] in Hrest. by rewrite Hrest, <- app_assoc.
Qed.

(** ** Which documents the emitter accepts *)

Lemma emit_element_outcome dups (el : Element.t) (st : emit_state) :
  match emit_element dups el st with
  | (Returned _, st') =>
      (Element.is_function el = true ->
       descriptions_empty (Element.get_arguments el) /\
       (Element.type el = None -> ret_type_comment st <> None)) /\
      (ret_type_comment st' <> None <->
       ret_type_comment st <> None \/ Element.is_function el = true)
  | (Raised _, _) =>
      Element.is_function el = true /\
      ¬ (descriptions_empty (Element.get_arguments el) /\
         (Element.type el = None -> ret_type_comment st <> None))
  end.
Proof.
  unfold emit_element. destruct (Element.is_function el) eqn:Hfun.
  - rewrite emit_function_run.
    destruct (args_loop _ _ _) as [looped|e] eqn:Hloop.
    + apply args_loop_returned in Hloop. cbn zeta.
      destruct (Element.type el) as [el_type|].
      * cbn [ret_type_comment]. split; [by split|]. split; [auto | done].
      * destruct (ret_type_comment st) as [comment|] eqn:Hst.
        -- cbn [ret_type_comment]. split; [by split|]. split; [auto | done].
        -- split; [done|]. intros [_ H]. by apply H.
    + split; [done|]. intros [Hempty _].
      destruct (args_loop_completes _ [] ∅ Hempty) as (? & ? & Hrun & _).
      rewrite Hrun in Hloop. discriminate.
  - rewrite emit_field_run. cbn zeta. cbn [ret_type_comment].
    split; [done|]. split; [auto | by intros [|]].
Qed.


(** A loop whose body reads and binds [ret_type_comment] as the emitter
    does: [ok] is what the body checks of an item, [funcs] the function
    elements it goes through. *)
Lemma loop_outcome {A} (body : A -> M unit) (ok : A -> Prop)
    (funcs : A -> list Element.t) :
  (forall x st,
      match body x st with
      | (Returned _, st') =>
          ok x /\
          (ret_type_comment st <> None \/ first_function_typed (funcs x)) /\
          (ret_type_comment st' <> None <->
           ret_type_comment st <> None \/ funcs x <> [])
      | (Raised _, _) =>
          ¬ (ok x /\
             (ret_type_comment st <> None \/ first_function_typed (funcs x)))
      end) ->
  forall l st,
    match for_each l body st with
    | (Returned _, st') =>
        Forall ok l /\
        (ret_type_comment st <> None
         \/ first_function_typed (concat (funcs <$> l))) /\
        (ret_type_comment st' <> None <->
         ret_type_comment st <> None \/ concat (funcs <$> l) <> [])
    | (Raised _, _) =>
        ¬ (Forall ok l /\
           (ret_type_comment st <> None
            \/ first_function_typed (concat (funcs <$> l))))
    end.
Proof.
  intros Hbody l. induction l as [|x l IH]; intros st.
  - cbn. split; [constructor|]. split; [by right | tauto].
  - cbn [for_each fmap list_fmap concat]. specialize (Hbody x st).
    destruct (body x st) as [[[]|e] st1] eqn:Hx.
    + rewrite (bind_returned _ _ _ _ _ Hx). specialize (IH st1).
      destruct Hbody as (Hok & Hst & Hst1).
      destruct (for_each l body st1) as [[[]|e] st2].
      * destruct IH as (Hall & Hrest & Hst2).
        split; [by constructor|]. split.
        -- destruct (funcs x) as [|f fs]; cbn [app first_function_typed] in *;
             tauto.
        -- rewrite Hst2, Hst1.
           destruct (funcs x) as [|f fs]; cbn [app]; [tauto|].
           split; [intros _ | intros _; left]; right; discriminate.
      * intros [Hall Hfirst]. apply IH. apply Forall_cons in Hall as [_ Hall].
        split; [done|]. rewrite Hst1.
        destruct (funcs x) as [|f fs]; cbn [app first_function_typed] in *;
          [tauto|]. left. right. discriminate.
    + rewrite (bind_raised _ _ _ _ _ Hx).
      intros [Hall Hfirst]. apply Hbody. apply Forall_cons in Hall as [Hok _].
      split; [done|].
      destruct (funcs x) as [|f fs]; cbn [app first_function_typed] in *;
        tauto.
Qed.

Lemma concat_singletons_filter (elements : list Element.t) :
  concat ((fun el => if Element.is_function el then [el] else []) <$> elements)
  = List.filter Element.is_function elements.
Proof.
  induction elements as [|el elements IH]; [done|].
  cbn [fmap list_fmap concat List.filter]. rewrite <- IH.
  by destruct (Element.is_function el).
Qed.

Lemma elements_loop_outcome dups (elements : list Element.t) (st : emit_state) :
  match for_each elements (emit_element dups) st with
  | (Returned _, st') =>
      Forall arguments_pass elements /\
      (ret_type_comment st <> None
       \/ first_function_typed (List.filter Element.is_function elements)) /\
      (ret_type_comment st' <> None <->
       ret_type_comment st <> None
       \/ List.filter Element.is_function elements <> [])
  | (Raised _, _) =>
      ¬ (Forall arguments_pass elements /\
         (ret_type_comment st <> None
          \/ first_function_typed (List.filter Element.is_function elements)))
  end.
Proof.
  rewrite <- concat_singletons_filter. apply loop_outcome.
  intros el st0. pose proof (emit_element_outcome dups el st0) as H.
  unfold arguments_pass.
  destruct (emit_element dups el st0) as [[[]|e] st1].
  - destruct H as [Hfun Hst]. destruct (Element.is_function el) eqn:Hf.
    + destruct (Hfun eq_refl) as [Hempty Htype]. split; [done|]. split.
      * cbn [first_function_typed].
        destruct (Element.type el); [right; discriminate | left; by apply Htype].
      * rewrite Hst. split; (intros _; right; done).
    + split; [done|]. split; [by right|]. rewrite Hst.
      split; [intros [?|?]; [by left | done] | intros [?|?]; [by left | done]].
  - destruct H as [Hf H]. rewrite Hf. intros [Hempty Hfirst]. apply H.
    split; [by apply Hempty|]. intros Htype.
    destruct Hfirst as [?|Hfirst]; [done|].
    cbn [first_function_typed] in Hfirst. done.
Qed.

Lemma emit_type_outcome (each_type : TypeDecl.t) (st : emit_state) :
  match emit_type each_type st with
  | (Returned _, st') =>
      (TypeDecl.context each_type = GlobalContext ->
       TypeDecl.description each_type <> None /\
       Forall arguments_pass (TypeDecl.elements each_type)) /\
      (ret_type_comment st <> None
       \/ first_function_typed
            (if decide (TypeDecl.context each_type = GlobalContext)
             then List.filter Element.is_function (TypeDecl.elements each_type)
             else [])) /\
      (ret_type_comment st' <> None <->
       ret_type_comment st <> None
       \/ (if decide (TypeDecl.context each_type = GlobalContext)
           then List.filter Element.is_function (TypeDecl.elements each_type)
           else []) <> [])
  | (Raised _, _) =>
      ¬ ((TypeDecl.context each_type = GlobalContext ->
          TypeDecl.description each_type <> None /\
          Forall arguments_pass (TypeDecl.elements each_type)) /\
         (ret_type_comment st <> None
          \/ first_function_typed
               (if decide (TypeDecl.context each_type = GlobalContext)
                then List.filter Element.is_function
                       (TypeDecl.elements each_type)
                else [])))
  end.
Proof.
  unfold emit_type. destruct (is_global each_type) eqn:Hglobal; cbn [negb].
  - apply is_global_context in Hglobal.
    destruct (decide _) as [_|]; [|done].
    pose proof (emit_type_header_run each_type st) as Hhead.
    destruct (TypeDecl.description each_type) as [desc|] eqn:Hdesc.
    + rewrite (bind_returned _ _ _ _ _ Hhead). cbv beta.
      match goal with
      | |- context [bind (for_each ?l ?b) _ ?s] =>
          pose proof (elements_loop_outcome
                        (duplicate_elements (TypeDecl.elements each_type)) l s)
            as Hloop;
          destruct (for_each l b s) as [[[]|e] st2] eqn:Hrun
      end.
      * rewrite (bind_returned _ _ _ _ _ Hrun). cbn [print ret_type_comment].
        cbn [ret_type_comment] in Hloop.
        destruct Hloop as (Hall & Hfirst & Hst).
        split; [intros _; by split | by split].
      * rewrite (bind_raised _ _ _ _ _ Hrun). cbn [ret_type_comment] in Hloop.
        intros [Hok Hfirst]. apply Hloop. split; [by apply Hok | done].
    + rewrite (bind_raised _ _ _ _ _ Hhead). intros [Hok _].
      by destruct (Hok Hglobal).
  - assert (TypeDecl.context each_type <> GlobalContext) as Hctx.
    { intros Hctx%is_global_context. congruence. }
    destruct (decide _) as [|_]; [done|]. cbn.
    split; [done|]. split; [by right | tauto].
Qed.

Lemma concat_global_functions (types : list TypeDecl.t) :
  concat ((fun each_type =>
             if decide (TypeDecl.context each_type = GlobalContext)
             then List.filter Element.is_function (TypeDecl.elements each_type)
             else []) <$> types)
  = get_all_functions
      (FramscriptDoc.mk
         (filter (fun T => TypeDecl.context T = GlobalContext) types)).
Proof.
  rewrite get_all_functions_concat. cbn [FramscriptDoc.types].
  induction types as [|T types IH]; [done|].
  rewrite filter_cons. cbn [fmap list_fmap concat].
  destruct (decide _); cbn [fmap list_fmap concat app]; by rewrite IH.
Qed.

(** X8: the emitter completes on a document exactly when every
    global-context Type has a description other than [None], every
    argument of every function of those Types has an empty description,
    and the first function among those Types, if there is one, declares a
    type. *)
Theorem emission_completes_iff (doc : FramscriptDoc.t) (out : list string) :
  (exists out', run_emitter doc out = (Returned tt, out')) <->
  Forall
    (fun each_type =>
       TypeDecl.context each_type = GlobalContext ->
       TypeDecl.description each_type <> None /\
       Forall arguments_pass (TypeDecl.elements each_type))
    (FramscriptDoc.types doc) /\
  first_function_typed
    (get_all_functions
       (FramscriptDoc.mk
          (filter (fun T => TypeDecl.context T = GlobalContext)
             (FramscriptDoc.types doc)))).
Proof.
  rewrite <- concat_global_functions.
  unfold run_emitter, main_write_framscript_part_of_the_stub.
  rewrite (bind_returned _ _ _ _ _ (emit_header_run _)).
  pose proof (loop_outcome emit_type _ _ emit_type_outcome
                (FramscriptDoc.types doc)
                (mk_state ([] ++ out ++ stub_header) None)) as Hloop.
  cbn [app buf ret_type_comment] in *.
  destruct (for_each _ emit_type _) as [[[]|e] st].
  - destruct Hloop as (Hall & [Hbound|Hfirst] & _); [done|].
    split; [by intros _ | intros _; by eexists].
  - split; [intros [out' [=]] | intros [Hall Hfirst]].
    exfalso. apply Hloop. split; [done | by right].
Qed.

(** ** The docstring formatter read back *)

Lemma append_cons_ne_nil (a b : string) (c : ascii) : a +:+ String c b <> "".
Proof. destruct a; [rewrite append_nil_l | rewrite append_cons]; discriminate. Qed.

(** X9: the formatter returns the empty string exactly when the trimmed
    description is empty, whatever the indentation. *)
Theorem format_description_as_docstring_empty_iff (desc : string) (indent : Z) :
  format_description_as_docstring desc indent = "" <-> PyStr.strip desc = "".
Proof.
  rewrite format_description_as_docstring_unfold,
    <- (splitlines_nil (PyStr.strip desc)).
  destruct (PyStr.splitlines (PyStr.strip desc)) as [|ln more]; [by split|].
  split; [|discriminate]. intros H. exfalso. revert H.
  destruct (bool_decide (more = []) && _).
  - unfold PyStr.repr. apply append_cons_ne_nil.
  - destruct (join_cons nl
                (PyStr.mul " " indent +:+
                   (if PyStr.contains PyStr.backslash desc
                    then "r" +:+ triple_quote else triple_quote))
                (((fun l => PyStr.mul " " indent +:+ l) <$> (ln :: more))
                 ++ [PyStr.mul " " indent +:+ triple_quote])) as [rest ->].
    rewrite append_assoc.
    destruct (PyStr.contains PyStr.backslash desc);
      unfold triple_quote; rewrite !append_cons; apply append_cons_ne_nil.
Qed.

Lemma has_linebreak_app (a b : string) :
  has_linebreak (a +:+ b) = has_linebreak a || has_linebreak b.
Proof.
  induction a as [|c a IH]; [done|].
  rewrite append_cons. cbn [has_linebreak]. by rewrite IH, orb_assoc.
Qed.

Lemma has_linebreak_spaces (n : nat) : has_linebreak (PyStr.repeat " " n) = false.
Proof. induction n as [|n IH]; [done | exact IH]. Qed.

Lemma splitlines_from_no_linebreak (cur x : string) :
  has_linebreak x = false ->
  PyStr.splitlines_from cur x =
    match cur +:+ x with EmptyString => [] | line => [line] end.
Proof.
  revert cur. induction x as [|c x IH]; intros cur Hx.
  - rewrite append_nil_r. by destruct cur.
  - cbn [has_linebreak] in Hx. apply orb_false_iff in Hx as [Hc Hx].
    cbn [PyStr.splitlines_from]. rewrite Hc, IH by done.
    by rewrite append_assoc.
Qed.

Lemma splitlines_from_newline (cur x rest : string) :
  has_linebreak x = false ->
  PyStr.splitlines_from cur (x +:+ String "010" rest) =
    (cur +:+ x) :: PyStr.splitlines_from "" rest.
Proof.
  revert cur. induction x as [|c x IH]; intros cur Hx.
  - rewrite append_nil_l, append_nil_r. reflexivity.
  - cbn [has_linebreak] in Hx. apply orb_false_iff in Hx as [Hc Hx].
    rewrite append_cons. cbn [PyStr.splitlines_from]. rewrite Hc, IH by done.
    by rewrite append_assoc.
Qed.

(** Lines without breaks, the last one not empty, joined by newlines and
    split again, are the same lines. *)
Lemma splitlines_join (lines : list string) (last : string) :
  Forall (fun ln => has_linebreak ln = false) (lines ++ [last]) ->
  last <> "" ->
  PyStr.splitlines (PyStr.join nl (lines ++ [last])) = lines ++ [last].
Proof.
  intros Hall Hlast. unfold PyStr.splitlines.
  induction lines as [|x lines IH].
  - cbn [app PyStr.join]. apply Forall_cons in Hall as [Hx _].
    rewrite splitlines_from_no_linebreak, append_nil_l by done.
    by destruct last.
  - apply Forall_cons in Hall as [Hx Hall]. specialize (IH Hall).
    cbn [app]. destruct (lines ++ [last]) as [|y l] eqn:Hl.
    { by destruct lines. }
    change (PyStr.join nl (x :: y :: l))
      with (x +:+ nl +:+ PyStr.join nl (y :: l)). unfold nl. rewrite append_cons, append_nil_l.
    rewrite splitlines_from_newline, append_nil_l by done.
    f_equal. exact IH.
Qed.

Lemma splitlines_from_lines (cur s : string) :
  has_linebreak cur = false ->
  Forall (fun ln => has_linebreak ln = false) (PyStr.splitlines_from cur s).
Proof.
  revert cur. induction s as [|c rest IH]; intros cur Hcur.
  - cbn. destruct cur; [constructor | by repeat constructor].
  - cbn [PyStr.splitlines_from]. destruct (PyStr.islinebreak c) eqn:Hc.
    + assert (Forall (fun ln => has_linebreak ln = false)
                (cur :: PyStr.splitlines_from "" rest)) as Hplain
        by (constructor; [done | by apply IH]).
      destruct c as [[] [] [] [] [] [] [] []]; try exact Hplain.
      destruct rest as [|[[] [] [] [] [] [] [] []] rest']; try exact Hplain.
      constructor; [done|].
      assert (Forall (fun ln => has_linebreak ln = false)
                (PyStr.splitlines_from "" (String "010" rest'))) as Hrest
        by (by apply IH).
      cbn in Hrest. by apply Forall_cons in Hrest as [_ Hrest].
    + apply IH. rewrite has_linebreak_app. cbn [has_linebreak].
      by rewrite Hcur, Hc.
Qed.

(** X10: a block docstring read back line by line is the opening
    delimiter, the lines of the trimmed description in their order, and
    the closing delimiter, each behind the padding: every source line
    stays a line of its own. *)
Theorem docstring_block_lines (desc : string) (indent : Z) :
  let text := PyStr.strip desc in
  let pad := PyStr.mul " " indent in
  text <> "" ->
  length (PyStr.splitlines text) <> 1%nat
  \/ PyStr.contains PyStr.backslash text = true ->
  PyStr.splitlines (format_description_as_docstring desc indent) =
    [pad +:+ (if PyStr.contains PyStr.backslash text
              then "r" +:+ triple_quote else triple_quote)]
    ++ ((fun ln => pad +:+ ln) <$> PyStr.splitlines text)
    ++ [pad +:+ triple_quote].
Proof.
  intros text pad Htext Hcase. subst text pad.
  rewrite format_description_as_docstring_unfold.
  rewrite (contains_strip PyStr.backslash desc) in * by reflexivity.
  pose proof (splitlines_from_lines "" (PyStr.strip desc) eq_refl) as Hlines.
  fold (PyStr.splitlines (PyStr.strip desc)) in Hlines.
  destruct (PyStr.splitlines (PyStr.strip desc)) as [|ln more] eqn:Hsplit.
  { apply splitlines_nil in Hsplit. contradiction. }
  assert (bool_decide (more = [])
          && negb (PyStr.contains PyStr.backslash desc) = false) as ->.
  { destruct Hcase as [Hlen | ->]; [|apply andb_false_r].
    rewrite bool_decide_eq_false_2; [done|]. intros ->. by apply Hlen. }
  assert (has_linebreak (PyStr.mul " " indent) = false) as Hpad
    by apply has_linebreak_spaces.
  rewrite app_comm_cons.
  apply (splitlines_join
           ((PyStr.mul " " indent +:+
               (if PyStr.contains PyStr.backslash desc
                then "r" +:+ triple_quote else triple_quote))
            :: ((fun l => PyStr.mul " " indent +:+ l) <$> (ln :: more)))
           (PyStr.mul " " indent +:+ triple_quote)).
  - rewrite <- app_comm_cons. constructor.
    + rewrite has_linebreak_app, Hpad.
      by destruct (PyStr.contains PyStr.backslash desc).
    + apply Forall_app. split.
      * apply Forall_fmap. eapply Forall_impl; [exact Hlines|].
        intros l Hl. cbn. by rewrite has_linebreak_app, Hpad, Hl.
      * constructor; [|constructor]. by rewrite has_linebreak_app, Hpad.
  - unfold triple_quote. apply append_cons_ne_nil.
Qed.

Lemma docstring_block_lines_witness :
  PyStr.splitlines
    (format_description_as_docstring ("World size" +:+ nl +:+ "in units") 4)
  = ["    " +:+ triple_quote; "    World size"; "    in units";
     "    " +:+ triple_quote].
Proof.
  apply (docstring_block_lines ("World size" +:+ nl +:+ "in units") 4).
  - vm_compute. discriminate.
  - left. vm_compute. discriminate.
Defined.

(** ** [FramsticksLib]: short genotypes *)

Lemma string_length_app (a b : string) :
  String.length (a +:+ b) = (String.length a + String.length b)%nat.
Proof. induction a as [|c a IH]; [done|]. rewrite append_cons. cbn. by rewrite IH. Qed.

Lemma repr_char_length (q c : ascii) :
  q = PyStr.squote \/ q = PyStr.dquote ->
  (1 <= String.length (PyStr.repr_char q c) <= 4)%nat.
Proof.
  intros [-> | ->]; destruct c as [[] [] [] [] [] [] [] []]; vm_compute; lia.
Qed.

Lemma repr_body_length (q : ascii) (s : string) :
  q = PyStr.squote \/ q = PyStr.dquote ->
  (String.length (PyStr.repr_body q s) <= 4 * String.length s)%nat.
Proof.
  intros Hq. induction s as [|c s IH]; [done|].
  cbn [PyStr.repr_body String.length]. rewrite string_length_app.
  pose proof (repr_char_length q c Hq). lia.
Qed.

Lemma repr_body_app (q : ascii) (a b : string) :
  PyStr.repr_body q (a +:+ b) = PyStr.repr_body q a +:+ PyStr.repr_body q b.
Proof.
  induction a as [|c a IH]; [done|].
  rewrite append_cons. cbn [PyStr.repr_body]. by rewrite IH, append_assoc.
Qed.

Lemma repr_length (s : string) :
  exists q,
    (q = PyStr.squote \/ q = PyStr.dquote) /\
    String.length (PyStr.repr s)
    = (2 + String.length (PyStr.repr_body q s))%nat.
Proof.
  unfold PyStr.repr.
  destruct (PyStr.contains PyStr.squote s && negb (PyStr.contains PyStr.dquote s));
    [exists PyStr.dquote | exists PyStr.squote];
    (split; [auto|]); cbn [String.length];
    rewrite string_length_app; cbn [String.length]; lia.
Qed.

Lemma substring_length (n : nat) (s : string) :
  String.length (String.substring 0 n s) = Nat.min n (String.length s).
Proof.
  revert s. induction n as [|n IH]; intros [|c s]; cbn; try done.
  by rewrite IH.
Qed.


(** ** [FramsticksLib]: complexity constraints *)

Lemma value_within_constraint_loose (actual : Z) (tight loose : option Z) :
  FramsticksLib.at_least_as_loose tight loose ->
  FramsticksLib.value_within_constraint actual tight = true ->
  FramsticksLib.value_within_constraint actual loose = true.
Proof.
  unfold FramsticksLib.at_least_as_loose, FramsticksLib.value_within_constraint.
  destruct loose as [l|], tight as [t|]; try done.
  destruct (actual >? t)%Z eqn:Ht; [done|]. intros Hle _.
  destruct (actual >? l)%Z eqn:Hl; [|done]. lia.
Qed.

(** X12: loosening limits never turns an accepted genotype into a rejected
    one: if a genotype satisfies five limits, it satisfies any limits that
    are absent or at least as large. *)
Theorem satisfiesConstraints_monotone
    (Model_newFromString : string -> FramsticksLib.Model) (genotype : string)
    (parts joints neurons connections genochars : option Z)
    (parts' joints' neurons' connections' genochars' : option Z) :
  FramsticksLib.at_least_as_loose parts parts' ->
  FramsticksLib.at_least_as_loose joints joints' ->
  FramsticksLib.at_least_as_loose neurons neurons' ->
  FramsticksLib.at_least_as_loose connections connections' ->
  FramsticksLib.at_least_as_loose genochars genochars' ->
  FramsticksLib.satisfiesConstraints Model_newFromString genotype
    parts joints neurons connections genochars = true ->
  FramsticksLib.satisfiesConstraints Model_newFromString genotype
    parts' joints' neurons' connections' genochars' = true.
Proof.
  intros HP HJ HN HC HG. unfold FramsticksLib.satisfiesConstraints.
  destruct (FramsticksLib.getPJNC Model_newFromString genotype)
    as [[[[P J] N] C]|]; [|done].
  cbn zeta. rewrite !andb_true_l, !andb_true_iff.
  intros [[[[HG' HP'] HJ'] HN'] HC'].
  repeat split; eapply value_within_constraint_loose; eauto.
Qed.

Lemma satisfiesConstraints_monotone_witness :
  FramsticksLib.satisfiesConstraints
    (fun _ => FramsticksLib.mk_model 1 3 2 1 0) "XXX"
    (Some 5%Z) None (Some 5%Z) (Some 10%Z) None = true.
Proof.
  apply (satisfiesConstraints_monotone
           (fun _ => FramsticksLib.mk_model 1 3 2 1 0) "XXX"
           (Some 3%Z) (Some 2%Z) (Some 1%Z) (Some 0%Z) (Some 3%Z));
    try (cbn; lia); try exact I.
  reflexivity.
Defined.

(** ** [FramsticksLib]: genetic operators *)

Section Operators.

Variable world : Type.
Variable GenMan_mutate : string -> world -> string * string * world.
Variable substitute : bool.

Lemma mutate_loop_spec (genotype_list mutated printed : list string) (w : world) :
  exists (more warnings : list string) (w' : world),
    FramsticksLib.mutate_loop world GenMan_mutate substitute
      genotype_list mutated printed w
    = (mutated ++ more, printed ++ warnings, w') /\
    length more = length genotype_list /\
    (length warnings <= length genotype_list)%nat /\
    (substitute = true ->
     forall i, more !! i = Some FramsticksLib.GENOTYPE_INVALID ->
               genotype_list !! i = Some FramsticksLib.GENOTYPE_INVALID) /\
    (substitute = false -> warnings = []).
Proof.
  revert mutated printed w.
  induction genotype_list as [|parent rest IH]; intros mutated printed w.
  - exists [], [], w. rewrite !app_nil_r. repeat split; try done.
  - cbn [FramsticksLib.mutate_loop].
    destruct (GenMan_mutate parent w) as [[offspring info] w1].
    destruct (bool_decide (offspring = FramsticksLib.GENOTYPE_INVALID)
              && substitute) eqn:Hfail.
    + match goal with
      | |- context [FramsticksLib.mutate_loop _ _ _ rest ?m ?p ?s] =>
          destruct (IH m p s) as (more & warnings & w' & -> & Hlen & Hwarn & Hinv & Hoff)
      end.
      eexists (parent :: more), (_ :: warnings), w'.
      rewrite <- !app_assoc. split; [reflexivity|].
      split; [cbn; lia|]. split; [cbn; lia|]. split.
      * intros Hsub [|i]; cbn; [by intros [= ->] | by apply Hinv].
      * intros ->. by rewrite andb_false_r in Hfail.
    + match goal with
      | |- context [FramsticksLib.mutate_loop _ _ _ rest ?m ?p ?s] =>
          destruct (IH m p s) as (more & warnings & w' & -> & Hlen & Hwarn & Hinv & Hoff)
      end.
      exists (offspring :: more), warnings, w'.
      rewrite <- !app_assoc. split; [reflexivity|].
      split; [cbn; lia|]. split; [cbn; lia|]. split; [|done].
      intros -> [|i]; cbn; [|by apply Hinv].
      intros [= ->]. rewrite andb_true_r in Hfail.
      by apply bool_decide_eq_false in Hfail.
Qed.

(** X13: [mutate] never raises: it returns one genotype per submitted
    genotype and prints at most one warning each.  With
    [GENOTYPE_INVALID_OFFSPRING_SUBSTITUTE_ORIGINAL] set, a returned
    genotype is the invalid marker only where the submitted genotype was
    that marker already; with the flag cleared nothing is printed. *)
Theorem mutate_one_per_parent (genotype_list : list string) (w : world) :
  exists (mutated warnings : list string) (w' : world),
    FramsticksLib.mutate world GenMan_mutate substitute genotype_list w
    = (FramsticksLib.Ok mutated, warnings, w') /\
    length mutated = length genotype_list /\
    (length warnings <= length genotype_list)%nat /\
    (substitute = true ->
     forall i, mutated !! i = Some FramsticksLib.GENOTYPE_INVALID ->
               genotype_list !! i = Some FramsticksLib.GENOTYPE_INVALID) /\
    (substitute = false -> warnings = []).
Proof.
  destruct (mutate_loop_spec genotype_list [] [] w)
    as (more & warnings & w' & Hrun & Hlen & Hwarn & Hinv & Hoff).
  exists more, warnings, w'. unfold FramsticksLib.mutate. rewrite Hrun.
  cbn [app]. rewrite bool_decide_eq_false_2 by (intros H; by apply H).
  done.
Qed.

Variable GenMan_crossOver : string -> string -> world -> string * string * world.
Variable random_choice_first : world -> bool * world.


End Operators.

(** ** [FramsticksLib]: validity checks *)

Lemma foldl_snoc_fmap {A B} (f : A -> B) (l : list A) (acc : list B) :
  foldl (fun acc x => acc ++ [f x]) acc l = acc ++ (f <$> l).
Proof.
  revert acc. induction l as [|x l IH]; intros acc; cbn.
  - by rewrite app_nil_r.
  - by rewrite IH, <- app_assoc.
Qed.

(** X15: both validity checks return one answer per genotype and never
    raise, and [isValidCreature] is at least as demanding as [isValid]:
    a genotype it accepts is accepted by [isValid] too. *)
Theorem isValidCreature_implies_isValid
    (Geno_is_valid Population_canAdd : string -> Z)
    (genotype_list : list string) :
  exists valid valid_creature : list bool,
    FramsticksLib.isValid Geno_is_valid genotype_list
    = FramsticksLib.Ok valid /\
    FramsticksLib.isValidCreature Geno_is_valid Population_canAdd genotype_list
    = FramsticksLib.Ok valid_creature /\
    length valid = length genotype_list /\
    length valid_creature = length genotype_list /\
    forall i, valid_creature !! i = Some true -> valid !! i = Some true.
Proof.
  unfold FramsticksLib.isValid, FramsticksLib.isValidCreature.
  rewrite foldl_snoc_fmap.
  assert (forall l acc,
             foldl (fun valid g =>
                      if bool_decide (Geno_is_valid g <> 1%Z)
                      then valid ++ [false]
                      else valid ++ [bool_decide (Population_canAdd g = 1%Z)])
               acc l
             = acc ++ ((fun g => bool_decide (Geno_is_valid g = 1%Z)
                                 && bool_decide (Population_canAdd g = 1%Z))
                         <$> l)) as Hfold.
  { induction l as [|g l IH]; intros acc; cbn.
    - by rewrite app_nil_r.
    - case_bool_decide as Hne; rewrite IH, <- app_assoc; cbn [app].
      + by rewrite (bool_decide_eq_false_2 (Geno_is_valid g = 1%Z)).
      + rewrite (bool_decide_eq_true_2 (Geno_is_valid g = 1%Z)); [done|].
        destruct (decide (Geno_is_valid g = 1%Z)); [done | contradiction]. }
  rewrite Hfold. cbn [app].
  rewrite !bool_decide_eq_false_2
    by (rewrite length_fmap; intros H; by apply H).
  eexists _, _. split; [reflexivity|]. split; [reflexivity|].
  rewrite !length_fmap. split; [done|]. split; [done|].
  intros i. rewrite !list_lookup_fmap.
  destruct (genotype_list !! i) as [g|]; cbn; [|done].
  intros [= H]. apply andb_true_iff in H as [-> _]. done.
Qed.

(** ** The summary *)

Lemma print_type_summary_contexts (types : list TypeDecl.t)
    (acc : list string * gset string) :
  (foldl print_type_summary acc types).2 =
    acc.2 ∪ list_to_set
              ((fun T => context_str (TypeDecl.context T)) <$> types).
Proof.
  revert acc. induction types as [|T types IH]; intros acc.
  - cbn. by rewrite union_empty_r_L.
  - cbn [foldl]. rewrite IH. cbn [print_type_summary snd fmap list_fmap].
    cbn [list_to_set foldr].
    by rewrite (comm_L (∪) {[_]} acc.2), <- (assoc_L (∪)).
Qed.

(** X16: the last entry of [print_summary] is the line of contexts; it
    lists the contexts of the document's Types, each once, in ascending
    order of their text. *)
Theorem print_summary_contexts (doc : FramscriptDoc.t) :
  exists (entries contexts : list string),
    print_summary doc
    = entries ++ [nl +:+ "Contexts: " +:+ repr_list contexts] /\
    StronglySorted String.le contexts /\
    NoDup contexts /\
    forall c,
      c ∈ contexts <->
      exists T, T ∈ FramscriptDoc.types doc /\
                context_str (TypeDecl.context T) = c.
Proof.
  unfold print_summary. eexists _, _. split; [reflexivity|].
  rewrite print_type_summary_contexts. cbn [snd]. unfold sorted_contexts.
  split; [apply StronglySorted_merge_sort; apply _|]. split.
  - rewrite merge_sort_Permutation. apply NoDup_elements.
  - intros c. rewrite merge_sort_Permutation, elem_of_elements.
    rewrite elem_of_union, elem_of_list_to_set, list_elem_of_fmap. split.
    + intros [H | (T & -> & HT)]; [by apply not_elem_of_empty in H | eauto].
    + intros (T & HT & <-). right. eauto.
Qed.
